(** * GooglePay_Analysis: the extractor, the aggregator and the timeframe filter

    A shallow embedding of [src/crewai_app.py]: [GPPayAnalyzer.parse_html_content],
    [analyze_transaction_data], [GPPayAnalyzer.filter_by_timeframe], the
    empty-batch guard of [GPPayAnalyzer.analyze_with_crewai], the [/upload]
    and [/quick-insights] endpoints and the timeframe [/analyze] works out,
    with the part of the Python library they run on ([str], [re], [float],
    [datetime], the [sorted] builtin and the list objects the analyzer
    holds). *)

From Stdlib Require Import List NArith ZArith QArith Bool Arith Lia.
From Stdlib Require Import Ascii String Permutation Sorted.
Import ListNotations.

Set Implicit Arguments.
Open Scope N_scope.

(** ** Python text

    A [str] is a sequence of Unicode code points.  The tables below are those
    of the Unicode database the interpreter ships ([str.isspace], category
    [Nd]); [re] uses the same two tables for [\s] and [\d] on [str]
    patterns. *)

Definition str := list N.

(** An ASCII literal as a [str]. *)
Definition py (s : string) : str := map N_of_ascii (list_ascii_of_string s).

(** U+20B9, the rupee sign. *)
Definition rupee : N := 8377.

Definition in_range (lo hi c : N) : bool := (lo <=? c) && (c <=? hi).

(** [str.isspace] on one code point, which is also [\s]. *)
Definition is_space (c : N) : bool :=
  in_range 9 13 c || in_range 28 32 c || (c =? 133) || (c =? 160)
  || (c =? 5760) || in_range 8192 8202 c || (c =? 8232) || (c =? 8233)
  || (c =? 8239) || (c =? 8287) || (c =? 12288).

(** The code points of the digit zero of every decimal script (category
    [Nd]); each is followed by its digits one to nine. *)
Definition decimal_zeros : list N :=
  [48; 1632; 1776; 1984; 2406; 2534; 2662; 2790; 2918; 3046; 3174; 3302;
   3430; 3558; 3664; 3792; 3872; 4160; 4240; 6112; 6160; 6470; 6608; 6784;
   6800; 6992; 7088; 7232; 7248; 42528; 43216; 43264; 43472; 43504; 43600;
   44016; 65296; 66720; 68912; 69734; 69872; 69942; 70096; 70384; 70736;
   70864; 71248; 71360; 71472; 71904; 72016; 72784; 73040; 73120; 92768;
   92864; 93008; 120782; 120792; 120802; 120812; 120822; 123200; 123632;
   125264; 130032].

(** The value of a decimal digit, as [int] reads it. *)
Definition decimal_value (c : N) : option N :=
  match find (fun z => in_range z (z + 9) c) decimal_zeros with
  | Some z => Some (c - z)
  | None => None
  end.

(** [\d] *)
Definition is_decimal (c : N) : bool :=
  match decimal_value c with Some _ => true | None => false end.

(** [[0-9]] *)
Definition is_ascii_digit (c : N) : bool := in_range 48 57 c.

(** [[A-Za-z]] *)
Definition is_ascii_letter (c : N) : bool := in_range 65 90 c || in_range 97 122 c.

Definition comma : N := 44.
Definition dot : N := 46.
Definition newline : N := 10.
Definition space : N := 32.

(** Equality of two [str], as [==] decides it. *)
Fixpoint str_eqb (a b : str) : bool :=
  match a, b with
  | [], [] => true
  | x :: a', y :: b' => (x =? y) && str_eqb a' b'
  | _, _ => false
  end.

(** [s.startswith(w)] *)
Fixpoint starts_with (w s : str) : bool :=
  match w, s with
  | [], _ => true
  | x :: w', y :: s' => (x =? y) && starts_with w' s'
  | _ :: _, [] => false
  end.

(** [w in s] for two [str]: [w] occurs in [s] as a contiguous run. *)
Fixpoint contains (w s : str) : bool :=
  starts_with w s || match s with [] => false | _ :: s' => contains w s' end.

(** [s.strip()]: leading and trailing whitespace removed. *)
Fixpoint lstrip (s : str) : str :=
  match s with
  | c :: s' => if is_space c then lstrip s' else s
  | [] => []
  end.

Definition rstrip (s : str) : str := rev (lstrip (rev s)).

Definition strip (s : str) : str := rstrip (lstrip s).

(** [s.replace(',', '')] *)
Definition remove_commas (s : str) : str := filter (fun c => negb (c =? comma)) s.

(** [s.lower()] on one code point.  The ASCII capitals go to their small
    letters; U+212A (Kelvin sign) goes to [k] and U+0130 to [i] followed by
    U+0307, the only code points outside ASCII whose lower case holds an ASCII
    letter.  Every other code point outside ASCII lowers to code points
    outside ASCII, and is kept as it is: the analyzer only looks ASCII words
    up in a lowered selector. *)
Definition lower_char (c : N) : str :=
  if in_range 65 90 c then [c + 32]
  else if c =? 8490 then [107]
  else if c =? 304 then [105; 775]
  else [c].

Definition lower (s : str) : str := flat_map lower_char s.

(** Comparison of two [str] by code point, the order of [<] on [str]. *)
Fixpoint str_compare (a b : str) : comparison :=
  match a, b with
  | [], [] => Eq
  | [], _ :: _ => Lt
  | _ :: _, [] => Gt
  | x :: a', y :: b' =>
      match x ?= y with
      | Eq => str_compare a' b'
      | o => o
      end
  end.

Definition str_ltb (a b : str) : bool :=
  match str_compare a b with Lt => true | _ => false end.

Definition str_leb (a b : str) : bool := negb (str_ltb b a).

(** ** Exceptions

    What a Python expression gives: a value, or a raised exception. *)

Inductive exn := ValueError | TypeError.

Inductive result (A : Type) :=
| Ok (a : A)
| Raise (e : exn).

Arguments Ok {A} a.
Arguments Raise {A} e.

Definition bind {A B : Type} (m : result A) (f : A -> result B) : result B :=
  match m with
  | Ok a => f a
  | Raise e => Raise e
  end.

Notation "x <- m ;; k" := (bind m (fun x => k))
  (at level 61, m at next level, right associativity).

(** ** Regular expressions

    The fragment of [re] the analyzer's patterns and [datetime.strptime] are
    written in, matched the way [re] does: by backtracking, the first
    alternative and the greedy (or, for [+?], the lazy) choice first.  Every
    quantifier of these patterns stands on a character class. *)

Module Regex.

Inductive regex :=
| Chr (c : N)                       (* one literal character *)
| Cls (p : N -> bool)               (* one character of a class *)
| Rep (greedy : bool) (lo : nat) (hi : option nat) (p : N -> bool)
                                    (* a class repeated lo to hi times *)
| Cat (r1 r2 : regex)
| Alt (r1 r2 : regex)
| Opt (r : regex)                   (* (?:r)? *)
| Grp (i : nat) (r : regex)         (* capturing group number i *)
| Eos.                              (* $ *)

(** The groups matched so far, the latest first. *)
Definition captures := list (nat * str).

Definition or_else {A : Type} (a b : option A) : option A :=
  match a with
  | Some x => Some x
  | None => b
  end.

Definition hi_allows (hi : option nat) : bool :=
  match hi with
  | Some O => false
  | _ => true
  end.

Definition hi_pred (hi : option nat) : option nat :=
  match hi with
  | Some n => Some (Nat.pred n)
  | None => None
  end.

(** A class repeated: [k] is what remains of the pattern. *)
Fixpoint rep {A : Type} (greedy : bool) (p : N -> bool) (lo : nat)
    (hi : option nat) (s : str) (k : str -> option A) {struct s} : option A :=
  let more :=
    match s with
    | c :: s' =>
        if p c && hi_allows hi
        then rep greedy p (Nat.pred lo) (hi_pred hi) s' k
        else None
    | [] => None
    end in
  match lo with
  | S _ => more
  | O => if greedy then or_else more (k s) else or_else (k s) more
  end.

(** [$] matches at the end of the text and before a newline that ends it. *)
Definition at_end (s : str) : bool :=
  match s with
  | [] => true
  | [c] => c =? newline
  | _ => false
  end.

Fixpoint run (r : regex) (s : str) (caps : captures)
    (k : str -> captures -> option captures) : option captures :=
  match r with
  | Chr c =>
      match s with
      | x :: s' => if x =? c then k s' caps else None
      | [] => None
      end
  | Cls p =>
      match s with
      | x :: s' => if p x then k s' caps else None
      | [] => None
      end
  | Rep g lo hi p => rep g p lo hi s (fun s' => k s' caps)
  | Cat r1 r2 => run r1 s caps (fun s' caps' => run r2 s' caps' k)
  | Alt r1 r2 => or_else (run r1 s caps k) (run r2 s caps k)
  | Opt r1 => or_else (run r1 s caps k) (k s caps)
  | Grp i r1 =>
      run r1 s caps
        (fun s' caps' => k s' ((i, firstn (List.length s - List.length s') s) :: caps'))
  | Eos => if at_end s then k s caps else None
  end.

(** The end of a pattern: the match is found; what it left unread is kept
    in the place of group 0. *)
Definition accept (s : str) (caps : captures) : option captures :=
  Some ((0%nat, s) :: caps).

(** [re.match]: the pattern at the start of the text; the second component
    is what the match left unread. *)
Definition match_at (r : regex) (s : str) : option (captures * str) :=
  match run r s [] accept with
  | Some ((_, s') :: caps) => Some (caps, s')
  | _ => None
  end.

(** [re.search]: the leftmost place where the pattern matches. *)
Fixpoint search (r : regex) (s : str) : option captures :=
  match match_at r s with
  | Some (caps, _) => Some caps
  | None =>
      match s with
      | [] => None
      | _ :: s' => search r s'
      end
  end.

(** [m.group(i)] *)
Fixpoint group (i : nat) (caps : captures) : str :=
  match caps with
  | [] => []
  | (j, g) :: caps' => if Nat.eqb i j then g else group i caps'
  end.

(** A literal word. *)
Fixpoint lit (w : str) : regex :=
  match w with
  | [] => Rep true 0 (Some 0%nat) (fun _ => false)
  | [c] => Chr c
  | c :: w' => Cat (Chr c) (lit w')
  end.

(** A sequence. *)
Fixpoint seq (rs : list regex) : regex :=
  match rs with
  | [] => Rep true 0 (Some 0%nat) (fun _ => false)
  | [r] => r
  | r :: rs' => Cat r (seq rs')
  end.

(** A choice between several alternatives, the first first. *)
Fixpoint alts (rs : list regex) : regex :=
  match rs with
  | [] => Cls (fun _ => false)
  | [r] => r
  | r :: rs' => Alt r (alts rs')
  end.

Definition plus (p : N -> bool) : regex := Rep true 1 None p.
Definition star (p : N -> bool) : regex := Rep true 0 None p.
Definition lazy_plus (p : N -> bool) : regex := Rep false 1 None p.
Definition times (n : nat) (p : N -> bool) : regex := Rep true n (Some n) p.

End Regex.

Import Regex.

(** ** Numbers and dates of the Python library *)

(** [int(s)] on a run of decimal digits of any script. *)
Fixpoint int_digits (acc : N) (s : str) : result N :=
  match s with
  | [] => Ok acc
  | c :: s' =>
      match decimal_value c with
      | Some v => int_digits (10 * acc + v) s'
      | None => Raise ValueError
      end
  end.

Definition py_int (s : str) : result N :=
  match s with
  | [] => Raise ValueError
  | _ => int_digits 0 s
  end.

(** The leading characters of a class, and what follows them. *)
Fixpoint span (p : N -> bool) (s : str) : str * str :=
  match s with
  | c :: s' =>
      if p c then let (a, b) := span p s' in (c :: a, b) else ([], s)
  | [] => ([], [])
  end.

(** The value of a run of ASCII digits. *)
Definition ascii_value (s : str) : N := fold_left (fun acc c => 10 * acc + (c - 48)) s 0.

(** [float(s)] on an unsigned decimal numeral: digits, then possibly a point
    and digits, with a digit somewhere.  The result is the exact decimal value
    (in lowest terms), which [float] rounds to the nearest double.  The empty
    text is no numeral: [float('')] raises [ValueError].  The other spellings
    [float] reads (a sign, an exponent, underscores, [inf], [nan], blanks
    around) hold a character the amount pattern does not let through; they
    are given [ValueError] here and the extractor never meets them.  The
    rounding to a double is not modelled, nor are its ends: a numeral too
    small for a double is read as [0.0] and one too large as [inf], where
    the value here is the exact one.  What is proved of amounts below is
    their sign and whether a token can be read. *)
Definition py_float (s : str) : result Q :=
  let (ip, rest) := span is_ascii_digit s in
  match rest with
  | [] =>
      match ip with
      | [] => Raise ValueError
      | _ => Ok (Qred (Z.of_N (ascii_value ip) # 1))
      end
  | c :: fp =>
      if (c =? dot) && forallb is_ascii_digit fp
         && negb (Nat.eqb (List.length ip + List.length fp) 0)
      then
        let scale := 10 ^ N.of_nat (List.length fp) in
        Ok (Qred (Z.of_N (ascii_value ip * scale + ascii_value fp)
                   # N.succ_pos (N.pred scale)))
      else Raise ValueError
  end.

(** [n] written in decimal. *)
Fixpoint decimal_aux (fuel : nat) (n : N) (acc : str) : str :=
  match fuel with
  | O => acc
  | S fuel' =>
      let acc' := (48 + n mod 10) :: acc in
      if n / 10 =? 0 then acc' else decimal_aux fuel' (n / 10) acc'
  end.

Definition decimal (n : N) : str := decimal_aux (S (N.to_nat (N.log2 n))) n [].

(** [n] in two digits, zero-filled ([%m], [%d]); [n] is below 100. *)
Definition two_digits (n : N) : str := [48 + n / 10; 48 + n mod 10].

Record datetime := { year : N; month : N; day : N }.

Definition is_leap (y : N) : bool :=
  (y mod 4 =? 0) && (negb (y mod 100 =? 0) || (y mod 400 =? 0)).

Definition days_in_month (y m : N) : N :=
  if m =? 2 then (if is_leap y then 29 else 28)
  else if (m =? 4) || (m =? 6) || (m =? 9) || (m =? 11) then 30
  else 31.

(** The checks of the [datetime] constructor. *)
Definition valid_date (y m d : N) : bool :=
  in_range 1 9999 y && in_range 1 12 m && in_range 1 (days_in_month y m) d.

Definition make_datetime (y m d : N) : result datetime :=
  if valid_date y m d then Ok {| year := y; month := m; day := d |}
  else Raise ValueError.

(** One pattern letter under [re.IGNORECASE]: the letter in either case, and
    for [s] also U+017F (long s), which [re] holds equivalent to it. *)
Definition ci (c : N) : regex :=
  Cls (fun x => (x =? c) || (x + 32 =? c) || ((c =? 115) && (x =? 383))).

Definition ci_word (w : string) : regex := seq (map ci (py w)).

Definition month_names : list string :=
  ["jan"; "feb"; "mar"; "apr"; "may"; "jun";
   "jul"; "aug"; "sep"; "oct"; "nov"; "dec"]%string.

(** The pattern [datetime.strptime] compiles for the format ["%d %b %Y"]:
    [(3[0-1]|[1-2]\d|0[1-9]|[1-9]| [1-9])\s+(jan|...|dec)\s+(\d\d\d\d)],
    case ignored. *)
Definition strptime_re : regex :=
  seq [Grp 1 (alts [Cat (Chr 51) (Cls (in_range 48 49));
                    Cat (Cls (in_range 49 50)) (Cls is_decimal);
                    Cat (Chr 48) (Cls (in_range 49 57));
                    Cls (in_range 49 57);
                    Cat (Chr space) (Cls (in_range 49 57))]);
       plus is_space;
       Grp 2 (alts (map ci_word month_names));
       plus is_space;
       Grp 3 (times 4 is_decimal)].

(** The place of a month name in the table, counted from one. *)
Fixpoint month_index (n : N) (names : list string) (w : str) : result N :=
  match names with
  | [] => Raise ValueError
  | name :: names' =>
      if str_eqb (py name) w then Ok n else month_index (n + 1) names' w
  end.

(** [datetime.strptime(data, "%d %b %Y")]: the whole of [data] has to match. *)
Definition strptime (data : str) : result datetime :=
  match match_at strptime_re data with
  | Some (found, []) =>
      d <- py_int (lstrip (group 1 found)) ;;
      m <- month_index 1 month_names (lower (group 2 found)) ;;
      y <- py_int (group 3 found) ;;
      make_datetime y m d
  | _ => Raise ValueError
  end.

(** [date_obj.strftime("%Y-%m-%d")].  [%m] and [%d] are two digits; [%Y] is
    the year as the C library writes it, which on Linux is without leading
    zeros, so the result has the ten characters of the ISO form for the years
    from 1000 on. *)
Definition strftime (t : datetime) : str :=
  decimal (year t) ++ py "-" ++ two_digits (month t) ++ py "-" ++ two_digits (day t).

(** ** The record extractor *)

(** One transaction, the dict [parse_html_content] appends. *)
Record transaction := {
  amount : Q;
  recipient : str;
  date : str;
  payment_method : str;
  id : str
}.

(** One element [soup.find_all] returns.  [main_text] is what
    [block.find('div', class_=...)] gives: [None], or the text-bearing
    element, held as the text nodes below it in document order. *)
Record block := { main_text : option (list str) }.

(** [tag.get_text(strip=True)]: every text node stripped, the empty ones
    left out, the others joined. *)
Definition get_text (nodes : list str) : str :=
  List.concat (filter (fun t => negb (str_eqb t [])) (map strip nodes)).

(** [[0-9,]] *)
Definition digit_or_comma (c : N) : bool := is_ascii_digit c || (c =? comma).

(** The rupee sign, [\s*] and the group [([0-9,]+(?:\.[0-9]+)?)] *)
Definition amount_re : regex :=
  seq [Chr rupee; star is_space;
       Grp 1 (Cat (plus digit_or_comma)
                  (Opt (Cat (Chr dot) (plus is_ascii_digit))))].

(** [.] matches everything but a newline. *)
Definition any_char (c : N) : bool := negb (c =? newline).

(** [(?:\s+using|\s+on)] *)
Definition marker_re : regex :=
  Alt (Cat (plus is_space) (lit (py "using")))
      (Cat (plus is_space) (lit (py "on"))).

(** [to\s+(.+?)(?:\s+using|\s+on)] *)
Definition recipient_re : regex :=
  seq [lit (py "to"); plus is_space; Grp 1 (lazy_plus any_char); marker_re].

(** [(\d{1,2})\s+([A-Za-z]{3})\s+(\d{4})] *)
Definition date_re : regex :=
  seq [Grp 1 (Rep true 1 (Some 2%nat) is_decimal); plus is_space;
       Grp 2 (times 3 is_ascii_letter); plus is_space;
       Grp 3 (times 4 is_decimal)].

(** [[A-Za-z0-9 \-&()/.]] *)
Definition method_char (c : N) : bool :=
  is_ascii_letter c || is_ascii_digit c || (c =? space) || (c =? 45)
  || (c =? 38) || (c =? 40) || (c =? 41) || (c =? 47) || (c =? dot).

(** [[Xx]] *)
Definition is_x (c : N) : bool := (c =? 88) || (c =? 120).

(** [(?:\s+[Xx]+|\s*$)] *)
Definition method_end_re : regex :=
  Alt (Cat (plus is_space) (plus is_x)) (Cat (star is_space) Eos).

(** [using\s+([A-Za-z0-9 \-&()/.]+?)(?:\s+[Xx]+|\s*$)] *)
Definition method_re : regex :=
  seq [lit (py "using"); plus is_space; Grp 1 (lazy_plus method_char);
       method_end_re].

(** The inner [try]: the date put together again, parsed and written out;
    [except ValueError: continue] is the [None]. *)
Definition format_date (d m y : str) : result (option str) :=
  match strptime (d ++ py " " ++ m ++ py " " ++ y) with
  | Ok date_obj => Ok (Some (strftime date_obj))
  | Raise ValueError => Ok None
  | Raise e => Raise e
  end.

(** The body of the loop for the block at place [i]: the record to append,
    [None] where the body goes on to the next block without one, or the
    exception that leaves the [try]. *)
Definition process_block (i : nat) (b : block) : result (option transaction) :=
  match main_text b with
  | None => Ok None
  | Some nodes =>
      let text := get_text nodes in
      let amount_match := search amount_re text in
      let recipient_match := search recipient_re text in
      let date_match := search date_re text in
      let method_match := search method_re text in
      match amount_match, recipient_match, date_match with
      | Some am, Some rm, Some dm =>
          a <- py_float (remove_commas (group 1 am)) ;;
          let r := strip (group 1 rm) in
          let method :=
            match method_match with
            | Some mm => strip (group 1 mm)
            | None => py "UPI"
            end in
          formatted <- format_date (group 1 dm) (group 2 dm) (group 3 dm) ;;
          match formatted with
          | None => Ok None
          | Some date_formatted =>
              Ok (Some {| amount := a;
                          recipient := r;
                          date := date_formatted;
                          payment_method := method;
                          id := py "tx_" ++ decimal (N.of_nat i) |})
          end
      | _, _, _ => Ok None
      end
  end.

(** The loop over [enumerate(blocks)]; [except Exception: continue] drops the
    block whose body raised. *)
Fixpoint extract_loop (i : nat) (blocks : list block)
    (transactions : list transaction) : list transaction :=
  match blocks with
  | [] => transactions
  | b :: rest =>
      match process_block i b with
      | Ok (Some t) => extract_loop (S i) rest (transactions ++ [t])
      | Ok None => extract_loop (S i) rest transactions
      | Raise _ => extract_loop (S i) rest transactions
      end
  end.

(** What [parse_html_content] returns for a document whose transaction
    blocks, as [find_all] lists them, are [blocks]. *)
Definition parse_html_content (blocks : list block) : list transaction :=
  extract_loop 0 blocks [].

(** The call as a whole.  [parse_html_content] begins with
    [BeautifulSoup(html_content, 'html.parser')] and [soup.find_all(...)]
    (lines 146 and 149), which stand before the loop and outside its [try]:
    what they raise leaves the call.  [markup] is what the two lines make of
    the document: the transaction blocks, or [Rejected] where the parser
    gives the document up and [BeautifulSoup] raises (its
    [ParserRejectedMarkup], for the [AssertionError] of [html.parser] on a
    marked section such as [<![x]>]). *)
Inductive markup :=
| Blocks (blocks : list block)
| Rejected.

(** What the call gives: the list it returns, or the parser's exception. *)
Inductive extraction :=
| Extracted (records : list transaction)
| Raised.

Definition parse_html_document (html_content : markup) : extraction :=
  match html_content with
  | Blocks blocks => Extracted (parse_html_content blocks)
  | Rejected => Raised
  end.

(** A block whose text element holds the one sentence [s]. *)
Definition sentence (s : str) : block := {| main_text := Some [s] |}.

Definition sample_1 : str :=
  py "You paid " ++ [rupee] ++ py "150.00 to Swiggy using HDFC Bank on 15 Nov 2024".
Definition sample_2 : str :=
  py "You paid " ++ [rupee] ++ py "85.50 to Zomato using UPI on 14 Nov 2024".
Definition sample_3 : str :=
  py "You paid " ++ [rupee] ++ py "200.00 to Amazon using Credit Card on 13 Nov 2024".

(** ** The aggregator *)

Set Warnings "-register-all".

(** The Python values a report holds.  The counts of a pandas [Series] are
    [numpy.int64] scalars; [Series.to_dict()] turns them into [int], the
    builtin [dict(series)] keeps them.  [PyNaN] is the float that is no
    number, the mean and the extremes of an empty column. *)
Inductive pyvalue :=
| PyFloat (q : Q)
| PyNaN
| PyInt (n : nat)
| NpInt64 (n : nat)
| PyStr (s : str)
| PyDict (entries : list (string * pyvalue)).

(** What [json.dumps] can write: it raises [TypeError] on a value that is
    none of the types of JSON, such as [numpy.int64]. *)
Fixpoint serializable (v : pyvalue) : bool :=
  match v with
  | NpInt64 _ => false
  | PyDict entries => forallb (fun e => serializable (snd e)) entries
  | _ => true
  end.

Definition json_dumps (v : pyvalue) : result pyvalue :=
  if serializable v then Ok v else Raise TypeError.

(** [df['amount'].sum()], as the exact sum of the exact amounts; the code
    adds doubles, with their rounding. *)
Definition sum_amounts (df : list transaction) : Q :=
  fold_left (fun acc t => Qred (acc + amount t)) df 0%Q.

(** [df['amount'].mean()] on a frame with a row; the mean of no row is NaN,
    which is no number. *)
Definition mean_amounts (df : list transaction) : option Q :=
  match df with
  | [] => None
  | _ => Some (Qred (sum_amounts df / (Z.of_nat (List.length df) # 1)))
  end.

(** [df['date'].min()] and [df['date'].max()]: the order of [str]. *)
Definition min_str (a b : str) : str := if str_ltb b a then b else a.
Definition max_str (a b : str) : str := if str_ltb a b then b else a.

Definition min_date (df : list transaction) : option str :=
  match df with
  | [] => None
  | t :: rest => Some (fold_left (fun m u => min_str m (date u)) rest (date t))
  end.

Definition max_date (df : list transaction) : option str :=
  match df with
  | [] => None
  | t :: rest => Some (fold_left (fun m u => max_str m (date u)) rest (date t))
  end.

(** [series.value_counts()]: every distinct value with the number of rows
    holding it, the largest count first; values of equal count are taken in
    the order of their first row. *)
Fixpoint distinct (l : list str) : list str :=
  match l with
  | [] => []
  | x :: l' => x :: filter (fun y => negb (str_eqb x y)) (distinct l')
  end.

Definition occurrences (w : str) (l : list str) : nat :=
  List.length (filter (str_eqb w) l).

Fixpoint insert_count (x : str * nat) (l : list (str * nat)) : list (str * nat) :=
  match l with
  | [] => [x]
  | y :: l' => if Nat.leb (snd x) (snd y) then y :: insert_count x l' else x :: l
  end.

Definition value_counts (l : list str) : list (str * nat) :=
  fold_left (fun acc x => insert_count x acc)
            (map (fun w => (w, occurrences w l)) (distinct l)) [].

(** The keys of a report are written as text. *)
Definition show (s : str) : string := string_of_list_ascii (map ascii_of_N s).

Definition opt_str (o : option str) : pyvalue :=
  match o with Some s => PyStr s | None => PyNaN end.

Definition opt_float (o : option Q) : pyvalue :=
  match o with Some q => PyFloat q | None => PyNaN end.

(** The [analysis] dict of [analyze_transaction_data], without its
    [monthly_trends] entry (sums of [float] under month keys, made with
    [to_dict()]). *)
Definition build_analysis (df : list transaction) : pyvalue :=
  PyDict
    [("total_spend", PyFloat (sum_amounts df));
     ("average_transaction", opt_float (mean_amounts df));
     ("transaction_count", PyInt (List.length df));
     ("top_merchants",
        PyDict (map (fun e => (show (fst e), NpInt64 (snd e)))
                    (firstn 5 (value_counts (map recipient df)))));
     ("payment_methods",
        PyDict (map (fun e => (show (fst e), PyInt (snd e)))
                    (value_counts (map payment_method df))));
     ("date_range",
        PyDict [("start", opt_str (min_date df)); ("end", opt_str (max_date df))])
    ]%string.

(** What the tool returns: the text ["No transactions to analyze"], the
    report written as JSON, or ["Error analyzing data: ..."] for the
    exception its [try] caught. *)
Inductive tool_output :=
| NoTransactions
| Report (analysis : pyvalue)
| ErrorAnalyzing (e : exn).

(** [analyze_transaction_data], on the rows [json.loads] read. *)
Definition analyze_transaction_data (data : list transaction) : tool_output :=
  match data with
  | [] => NoTransactions
  | _ =>
      match json_dumps (build_analysis data) with
      | Ok v => Report v
      | Raise e => ErrorAnalyzing e
      end
  end.

(** Looking an entry of a report up. *)
Fixpoint entry (key : string) (entries : list (string * pyvalue)) : option pyvalue :=
  match entries with
  | [] => None
  | (k, v) :: rest => if String.eqb key k then Some v else entry key rest
  end.

Definition field (key : string) (v : pyvalue) : option pyvalue :=
  match v with
  | PyDict entries => entry key entries
  | _ => None
  end.

(** The [insights] dict of the [/quick-insights] endpoint, which computes the
    same figures and takes its counts through [to_dict()]. *)
Definition quick_insights (transactions : list transaction) : pyvalue :=
  PyDict
    [("total_spend", PyFloat (sum_amounts transactions));
     ("average_transaction", opt_float (mean_amounts transactions));
     ("transaction_count", PyInt (List.length transactions));
     ("top_merchant",
        PyDict (map (fun e => (show (fst e), PyInt (snd e)))
                    (firstn 1 (value_counts (map recipient transactions)))));
     ("date_range",
        PyDict [("start", opt_str (min_date transactions));
                ("end", opt_str (max_date transactions))])
    ]%string.

(** ** The analyzer and its current batch

    [self.transactions] names a list object.  The list objects made so far
    are kept in a heap, so that a returned list can be told from the one the
    analyzer holds. *)

Definition loc := nat.

Definition heap := list (list transaction).

Definition deref (h : heap) (l : loc) : list transaction := nth l h [].

(** A new list object. *)
Definition alloc (h : heap) (v : list transaction) : loc * heap :=
  (List.length h, h ++ [v]).

Record GPPayAnalyzer := { transactions : loc }.

(** ** The timeframe filter *)

(** A stable sort by [date], smallest first. *)
Fixpoint insert_by_date (x : transaction) (l : list transaction) : list transaction :=
  match l with
  | [] => [x]
  | y :: l' =>
      if str_ltb (date y) (date x) then y :: insert_by_date x l' else x :: l
  end.

Fixpoint sort_by_date (l : list transaction) : list transaction :=
  match l with
  | [] => []
  | x :: l' => insert_by_date x (sort_by_date l')
  end.

(** [sorted(l, key=lambda x: x['date'], reverse=True)]: a new list; with
    [reverse] the list is reversed, sorted stably and reversed again. *)
Definition sorted_newest_first (l : list transaction) : list transaction :=
  rev (sort_by_date (rev l)).

(** The number of records the branches of [filter_by_timeframe] slice off,
    for a selector other than ["all"]. *)
Definition window (timeframe : str) : nat :=
  if contains (py "month") (lower timeframe) then
    if contains (py "three") timeframe || contains (py "3") timeframe
    then 90 else 30
  else if contains (py "week") (lower timeframe) then 7
  else if contains (py "year") (lower timeframe) then 365
  else 30.

(** [filter_by_timeframe]: the list object returned, and the heap after the
    call. *)
Definition filter_by_timeframe (self : GPPayAnalyzer) (timeframe : str)
    (h : heap) : loc * heap :=
  if str_eqb timeframe (py "all") then (transactions self, h)
  else
    match deref h (transactions self) with
    | [] => alloc h []
    | _ :: _ =>
        let sorted_txns := sorted_newest_first (deref h (transactions self)) in
        alloc h (firstn (window timeframe) sorted_txns)
    end.

(** The records of the list [filter_by_timeframe] returns. *)
Definition filtered (self : GPPayAnalyzer) (timeframe : str) (h : heap)
  : list transaction :=
  let (l, h') := filter_by_timeframe self timeframe h in deref h' l.

(** What [analyze_with_crewai] answers: the error marker for an empty
    selection, or the selection it hands to the basic analysis or to the
    crew. *)
Inductive insights :=
| NoTransactionsFound (timeframe : str)
| Analysed (filtered_txns : loc).

Definition analyze_with_crewai (self : GPPayAnalyzer) (query timeframe : str)
    (h : heap) : insights * heap :=
  let (filtered_txns, h') := filter_by_timeframe self timeframe h in
  match deref h' filtered_txns with
  | [] => (NoTransactionsFound timeframe, h')
  | _ :: _ => (Analysed filtered_txns, h')
  end.

(** The records of one date, in the order of the list. *)
Definition on_date (d : str) (l : list transaction) : list transaction :=
  filter (fun t => str_eqb (date t) d) l.

(** No record of a list comes before one of a later date. *)
Fixpoint newest_first (l : list transaction) : bool :=
  match l with
  | x :: ((y :: _) as l') => negb (str_ltb (date x) (date y)) && newest_first l'
  | _ => true
  end.

Fixpoint oldest_first (l : list transaction) : bool :=
  match l with
  | x :: ((y :: _) as l') => negb (str_ltb (date y) (date x)) && oldest_first l'
  | _ => true
  end.

(** ** Sample batches *)

(** The record the extractor makes of the [i]-th block of a document whose
    blocks all read ["You paid 1 to Shop on 15 Nov 2024"], with the rupee
    sign before the amount. *)
Definition numbered (i : nat) : transaction :=
  {| amount := 1;
     recipient := py "Shop";
     date := py "2024-11-15";
     payment_method := py "UPI";
     id := py "tx_" ++ decimal (N.of_nat i) |}.

Definition batch (n : nat) : list transaction := map numbered (List.seq 0 n).

(** An analyzer that holds the batch of [n] such records, and its heap. *)
Definition holder : GPPayAnalyzer := {| transactions := 0%nat |}.

Definition heap_of (n : nat) : heap := [batch n].

(** ** What the patterns look for, said without the matcher *)

(** Whitespace, and then the letters ["using"] or ["on"]. *)
Definition marker_follows (s : str) : bool :=
  negb (str_eqb (fst (span is_space s)) [])
  && (starts_with (py "using") (snd (span is_space s))
      || starts_with (py "on") (snd (span is_space s))).

(** Whitespace and then a letter [X] or [x]; or nothing but whitespace up
    to the end of the text. *)
Definition mask_or_end_follows (s : str) : bool :=
  (negb (str_eqb (fst (span is_space s)) [])
   && match snd (span is_space s) with c :: _ => is_x c | [] => false end)
  || str_eqb (snd (span is_space s)) [].

(** No whitespace at either end. *)
Definition starts_blank (s : str) : bool :=
  match s with c :: _ => is_space c | [] => false end.

Definition is_stripped (s : str) : bool :=
  negb (starts_blank s) && negb (starts_blank (rev s)).

(** The records the block at place [i] adds to the list: one or none. *)
Definition emitted (i : nat) (b : block) : list transaction :=
  match process_block i b with
  | Ok (Some t) => [t]
  | _ => []
  end.

(** The text of the date the extractor parses: the three groups of the date
    pattern put together again. *)
Definition date_text (dm : captures) : str :=
  group 1 dm ++ py " " ++ group 2 dm ++ py " " ++ group 3 dm.

(** The payment method the extractor takes from a sentence. *)
Definition method_of (text : str) : str :=
  match search method_re text with
  | Some mm => strip (group 1 mm)
  | None => py "UPI"
  end.

(** ** The recipient as the specification words it

    The text between the word ["to"] and the next word ["using"] or ["on"],
    the words of a sentence being what whitespace separates. *)

Fixpoint words_from (cur : str) (s : str) : list str :=
  match s with
  | [] => match cur with [] => [] | _ => [rev cur] end
  | c :: s' =>
      if is_space c
      then match cur with
           | [] => words_from [] s'
           | _ => rev cur :: words_from [] s'
           end
      else words_from (c :: cur) s'
  end.

Definition words (s : str) : list str := words_from [] s.

Fixpoint after_word (w : str) (ws : list str) : option (list str) :=
  match ws with
  | [] => None
  | x :: rest => if str_eqb x w then Some rest else after_word w rest
  end.

Fixpoint until_marker (ws : list str) : list str :=
  match ws with
  | [] => []
  | x :: rest =>
      if str_eqb x (py "using") || str_eqb x (py "on") then []
      else x :: until_marker rest
  end.

Fixpoint join (ws : list str) : str :=
  match ws with
  | [] => []
  | [x] => x
  | x :: rest => x ++ [space] ++ join rest
  end.

Definition spec_recipient (text : str) : option str :=
  match after_word (py "to") (words text) with
  | Some rest => Some (join (until_marker rest))
  | None => None
  end.

(** ** Sample sentences *)

Definition pizza_sample : str :=
  py "You paid " ++ [rupee] ++ py "150.00 to Pizza online using UPI on 15 Nov 2024".

Definition masked_sample : str :=
  py "You paid " ++ [rupee] ++ py "5 to A using XXXX1234 on 1 Jan 2024".

Definition zero_sample : str := [rupee] ++ py "0 1 Jan 2024 to   using".

Definition commas_sample : str := [rupee] ++ py ", to X on 1 Jan 2024".

(** ** The match [re.search] takes

    For a pattern of the shape [w\s+(cls+?)tail], where [follows] says of a
    text that [tail] matches at its start.  [word_match] is one way of
    matching the pattern at the start of [s]: the letters [w], the whitespace
    [ws], the group [g] and what is left, [post]. *)
Definition word_match (w : str) (cls : N -> bool) (follows : str -> bool)
    (s ws g post : str) : Prop :=
  s = w ++ ws ++ g ++ post /\
  ws <> [] /\ forallb is_space ws = true /\
  g <> [] /\ forallb cls g = true /\
  follows post = true.

(** The group of the match the search takes, said without the matcher: of
    all the ways of matching the pattern in [text], the one that starts at
    the leftmost place; of those, the one with the longest whitespace; of
    those, the one with the shortest group. *)
Definition first_word_match (w : str) (cls : N -> bool) (follows : str -> bool)
    (text g : str) : Prop :=
  exists pre ws post,
    text = pre ++ w ++ ws ++ g ++ post /\
    word_match w cls follows (w ++ ws ++ g ++ post) ws g post /\
    (forall pre1 s1 ws1 g1 post1,
        text = pre1 ++ s1 -> (List.length pre1 < List.length pre)%nat ->
        ~ word_match w cls follows s1 ws1 g1 post1) /\
    (forall ws1 g1 post1,
        word_match w cls follows (w ++ ws ++ g ++ post) ws1 g1 post1 ->
        (List.length ws1 <= List.length ws)%nat) /\
    (forall g1 post1,
        word_match w cls follows (w ++ ws ++ g ++ post) ws g1 post1 ->
        (List.length g <= List.length g1)%nat).

(** The pattern is found nowhere in [text]. *)
Definition no_word_match (w : str) (cls : N -> bool) (follows : str -> bool)
    (text : str) : Prop :=
  forall pre s ws g post,
    text = pre ++ s -> ~ word_match w cls follows s ws g post.

(** A sentence whose first ["to"] has no marker after it on its line, and
    one whose first ["using"] is followed by a comma. *)
Definition later_to_sample : str :=
  [rupee] ++ py "5 to A" ++ [newline] ++ py "B to C on 1 Jan 2024".

Definition second_using_sample : str :=
  py "Paid using card, " ++ [rupee] ++ py "5 to X using UPI on 1 Jan 2024".

(** The recipient the code takes from a text: the group of the first match
    of ["to"], whitespace, characters other than the line feed, and
    whitespace with ["using"] or ["on"] after it; stripped.  See [C7]
    below. *)
Definition recipient_between (text r : str) : Prop :=
  exists g,
    first_word_match (py "to") any_char marker_follows text g /\ r = strip g.

(** The payment method the code takes from a text: the group of the first
    match of ["using"], whitespace, characters of the method class, and a
    mask or the end of the text after it, stripped; or ["UPI"] where there is
    no match.  See [C8] below. *)
Definition method_after_using (text m : str) : Prop :=
  (exists g,
      first_word_match (py "using") method_char mask_or_end_follows text g /\
      m = strip g)
  \/ (no_word_match (py "using") method_char mask_or_end_follows text /\
      m = py "UPI").

(** The records of the three sample sentences. *)
Definition swiggy : transaction :=
  {| amount := 150;
     recipient := py "Swiggy";
     date := py "2024-11-15";
     payment_method := py "HDFC Bank on 15 Nov 2024";
     id := py "tx_0" |}.

Definition zomato : transaction :=
  {| amount := 171 # 2;
     recipient := py "Zomato";
     date := py "2024-11-14";
     payment_method := py "UPI on 14 Nov 2024";
     id := py "tx_1" |}.

Definition amazon : transaction :=
  {| amount := 200;
     recipient := py "Amazon";
     date := py "2024-11-13";
     payment_method := py "Credit Card on 13 Nov 2024";
     id := py "tx_2" |}.

(** The ISO form of a date, ten characters wide. *)
Definition iso_date (y m d : N) : str :=
  [48 + y / 1000; 48 + (y / 100) mod 10; 48 + (y / 10) mod 10; 48 + y mod 10]
  ++ py "-" ++ two_digits m ++ py "-" ++ two_digits d.

(** ** The analyzer as an object, and the endpoints *)

(** [parse_html_content] with its effect on the analyzer: the records are
    gathered in a new list object, which the analyzer holds from then on and
    which the call returns. *)
Definition GPPayAnalyzer_parse_html_content (self : GPPayAnalyzer)
    (blocks : list block) (h : heap) : loc * GPPayAnalyzer * heap :=
  let (l, h') := alloc h (parse_html_content blocks) in
  (l, {| transactions := l |}, h').


(** [s.endswith(w)] *)
Definition ends_with (w s : str) : bool := starts_with (rev w) (rev s).

(** What an endpoint raises.  [detail] is the text the code writes out; where
    the code puts [str(e)] after it, [cause] is that [e]. *)
Inductive exception :=
| UnicodeDecodeError
| HTTPException (status_code : nat) (detail : str) (cause : option exception).

(** What the function of an endpoint does: it returns a value to the
    framework or raises.  Writing the value out as JSON is the framework's
    work, after the function has returned, and is not modelled: a value it
    cannot write (a float that is [inf]) is answered with the status 500 by
    the framework itself. *)
Inductive outcome (A : Type) :=
| Returns (a : A)
| Raises (e : exception).

Arguments Returns {A} a.
Arguments Raises {A} e.

(** [except Exception as e: raise HTTPException(status_code=500,
    detail=f"...: {str(e)}")] around the body of an endpoint. *)
Definition except_exception {A : Type} (prefix : str) (body : outcome A)
  : outcome A :=
  match body with
  | Returns a => Returns a
  | Raises e => Raises (HTTPException 500 prefix (Some e))
  end.

(** The [summary] and the preview of the answer of [/upload], without the
    [total_amount] entry (a sum of [float]). *)
Record upload_summary := {
  total_transactions : nat;
  date_range_start : str;
  date_range_end : str;
  preview : list transaction
}.

(** The [/upload] endpoint, on a file of the name [filename]; [document] is
    what [content.decode('utf-8')] and the search for the transaction blocks
    give, [None] where the bytes are no UTF-8. *)
Definition upload_html (analyzer : GPPayAnalyzer) (filename : str)
    (document : option (list block)) (h : heap)
  : outcome upload_summary * GPPayAnalyzer * heap :=
  if negb (ends_with (py ".html") filename) then
    (Raises (HTTPException 400 (py "Please upload an HTML file") None),
     analyzer, h)
  else
    match document with
    | None =>
        (except_exception (py "Error processing file: ")
           (Raises UnicodeDecodeError),
         analyzer, h)
    | Some blocks =>
        let '(l, analyzer', h') :=
          GPPayAnalyzer_parse_html_content analyzer blocks h in
        (except_exception (py "Error processing file: ")
           match deref h' l with
           | [] =>
               Raises (HTTPException 400
                         (py "No transactions found in HTML file") None)
           | t :: rest =>
               Returns
                 {| total_transactions := List.length (t :: rest);
                    date_range_start :=
                      fold_left (fun m u => min_str m (date u)) rest (date t);
                    date_range_end :=
                      fold_left (fun m u => max_str m (date u)) rest (date t);
                    preview := firstn 5 (t :: rest) |}
           end,
         analyzer', h')
    end.


(** [a < b] on two dates. *)
Definition datetime_ltb (a b : datetime) : bool :=
  (year a <? year b)
  || ((year a =? year b)
      && ((month a <? month b) || ((month a =? month b) && (day a <? day b)))).

(** An analyzer's heap whose batch is the three sample records, not in the
    order of their dates. *)
Definition sample_heap : heap := [[amazon; swiggy; zomato]].

(** * Properties *)

(** ** Text *)

Lemma str_eqb_eq (a b : str) : str_eqb a b = true <-> a = b.
Proof.
  revert b; induction a as [|x a IH]; intros [|y b]; simpl; split;
    try congruence; try reflexivity.
  - intros H. apply andb_true_iff in H as [Hx Hab].
    apply N.eqb_eq in Hx. apply IH in Hab. congruence.
  - intros H. injection H as -> ->. rewrite N.eqb_refl. simpl. now apply IH.
Qed.

Lemma str_eqb_refl (a : str) : str_eqb a a = true.
Proof. now apply str_eqb_eq. Qed.

Lemma str_eqb_neq (a b : str) : str_eqb a b = false <-> a <> b.
Proof.
  split.
  - intros H E. apply str_eqb_eq in E. congruence.
  - intros H. destruct (str_eqb a b) eqn:E; [|reflexivity].
    apply str_eqb_eq in E. contradiction.
Qed.

Lemma str_compare_refl (a : str) : str_compare a a = Eq.
Proof. induction a as [|x a IH]; simpl; [|rewrite N.compare_refl]; auto. Qed.

Lemma str_compare_antisym (a b : str) :
  str_compare b a = CompOpp (str_compare a b).
Proof.
  revert b; induction a as [|x a IH]; intros [|y b]; simpl; auto.
  rewrite (N.compare_antisym x y).
  destruct (x ?= y); simpl; auto.
Qed.

Lemma str_ltb_irrefl (a : str) : str_ltb a a = false.
Proof. unfold str_ltb. now rewrite str_compare_refl. Qed.

Lemma str_ltb_asym (a b : str) : str_ltb a b = true -> str_ltb b a = false.
Proof.
  unfold str_ltb. rewrite (str_compare_antisym a b).
  destruct (str_compare a b); simpl; congruence.
Qed.

(** ** The heap *)

Lemma deref_alloc_new (h : heap) (v : list transaction) :
  deref (snd (alloc h v)) (fst (alloc h v)) = v.
Proof.
  unfold alloc, deref. simpl. rewrite app_nth2 by lia.
  now rewrite Nat.sub_diag.
Qed.

Lemma deref_alloc_old (h : heap) (v : list transaction) (l : loc) :
  (l < List.length h)%nat -> deref (snd (alloc h v)) l = deref h l.
Proof. intros H. unfold alloc, deref. simpl. now rewrite app_nth1. Qed.

Lemma alloc_keeps (h : heap) (v : list transaction) :
  firstn (List.length h) (snd (alloc h v)) = h.
Proof.
  unfold alloc. simpl. rewrite firstn_app, Nat.sub_diag, firstn_all. simpl.
  now rewrite app_nil_r.
Qed.

(** ** The sort of the filter *)

Lemma on_date_app (d : str) (l1 l2 : list transaction) :
  on_date d (l1 ++ l2) = on_date d l1 ++ on_date d l2.
Proof. apply filter_app. Qed.

Lemma on_date_rev (d : str) (l : list transaction) :
  on_date d (rev l) = rev (on_date d l).
Proof.
  unfold on_date. induction l as [|x l IH]; simpl; auto.
  rewrite filter_app, IH. simpl.
  destruct (str_eqb (date x) d); simpl; auto using app_nil_r.
Qed.

Lemma on_date_insert (d : str) (x : transaction) (l : list transaction) :
  on_date d (insert_by_date x l) = on_date d (x :: l).
Proof.
  induction l as [|y l IH]; simpl; auto.
  destruct (str_ltb (date y) (date x)) eqn:Hlt; auto.
  simpl in *. rewrite IH.
  destruct (str_eqb (date x) d) eqn:Hx, (str_eqb (date y) d) eqn:Hy; auto.
  apply str_eqb_eq in Hx, Hy. rewrite Hx, Hy, str_ltb_irrefl in Hlt. discriminate.
Qed.

Lemma on_date_sort (d : str) (l : list transaction) :
  on_date d (sort_by_date l) = on_date d l.
Proof.
  induction l as [|x l IH]; simpl; auto.
  rewrite on_date_insert. simpl. now rewrite <- IH.
Qed.

(** The sort keeps the records of equal date in the order they came in. *)
Lemma sorted_newest_first_stable (d : str) (l : list transaction) :
  on_date d (sorted_newest_first l) = on_date d l.
Proof.
  unfold sorted_newest_first.
  now rewrite on_date_rev, on_date_sort, on_date_rev, rev_involutive.
Qed.

Lemma insert_by_date_perm (x : transaction) (l : list transaction) :
  Permutation (insert_by_date x l) (x :: l).
Proof.
  induction l as [|y l IH]; simpl; auto.
  destruct (str_ltb (date y) (date x)); auto.
  rewrite IH. apply perm_swap.
Qed.

Lemma sort_by_date_perm (l : list transaction) : Permutation (sort_by_date l) l.
Proof.
  induction l as [|x l IH]; simpl; auto.
  rewrite insert_by_date_perm. now constructor.
Qed.

Lemma sorted_newest_first_perm (l : list transaction) :
  Permutation (sorted_newest_first l) l.
Proof.
  unfold sorted_newest_first.
  rewrite <- Permutation_rev, sort_by_date_perm. symmetry. apply Permutation_rev.
Qed.

Lemma insert_by_date_sorted (x : transaction) (l : list transaction) :
  oldest_first l = true -> oldest_first (insert_by_date x l) = true.
Proof.
  induction l as [|y l IH]; intros Hs; simpl; auto.
  destruct (str_ltb (date y) (date x)) eqn:Hlt.
  - destruct l as [|z l].
    + simpl. now rewrite (str_ltb_asym _ _ Hlt).
    + simpl in Hs. apply andb_true_iff in Hs as [Hyz Hs].
      specialize (IH Hs). simpl in IH |- *.
      destruct (str_ltb (date z) (date x)) eqn:Hzx.
      * now rewrite Hyz.
      * now rewrite (str_ltb_asym _ _ Hlt).
  - change (oldest_first (x :: y :: l) = true).
    simpl oldest_first at 1. rewrite Hlt. exact Hs.
Qed.

Lemma sort_by_date_sorted (l : list transaction) :
  oldest_first (sort_by_date l) = true.
Proof.
  induction l as [|x l IH]; simpl; auto using insert_by_date_sorted.
Qed.

Lemma oldest_first_snoc (l : list transaction) (x y : transaction) :
  oldest_first (l ++ [x]) = true -> str_ltb (date y) (date x) = false ->
  oldest_first ((l ++ [x]) ++ [y]) = true.
Proof.
  induction l as [|a l IH]; simpl; intros H Hxy.
  - now rewrite Hxy.
  - destruct l as [|b l]; simpl in *.
    + apply andb_true_iff in H as [H1 _]. now rewrite H1, Hxy.
    + apply andb_true_iff in H as [H1 H2]. rewrite H1. simpl. now apply IH.
Qed.

Lemma newest_first_rev (l : list transaction) :
  oldest_first l = true -> newest_first (rev l) = true.
Proof.
  induction l as [|x l IH]; simpl; auto.
  destruct l as [|y l]; auto.
  intros H. apply andb_true_iff in H as [Hxy Hs]. specialize (IH Hs).
  simpl in IH |- *. revert IH. generalize (rev l). intros r IH.
  clear Hs. induction r as [|a r IHr]; simpl in *.
  - now rewrite Hxy.
  - destruct r as [|b r]; simpl in *.
    + apply andb_true_iff in IH as [H1 _]. now rewrite H1, Hxy.
    + apply andb_true_iff in IH as [H1 H2]. rewrite H1. simpl. now apply IHr.
Qed.

Lemma sorted_newest_first_sorted (l : list transaction) :
  newest_first (sorted_newest_first l) = true.
Proof. apply newest_first_rev, sort_by_date_sorted. Qed.

(** ** The timeframe filter *)

Lemma filtered_all (self : GPPayAnalyzer) (h : heap) :
  filtered self (py "all") h = deref h (transactions self).
Proof. reflexivity. Qed.

(** For a selector other than ["all"] the filter sorts the batch, newest
    first, and slices the window off. *)
Lemma filtered_window (self : GPPayAnalyzer) (timeframe : str) (h : heap) :
  str_eqb timeframe (py "all") = false ->
  filtered self timeframe h =
  firstn (window timeframe) (sorted_newest_first (deref h (transactions self))).
Proof.
  intros Hall. unfold filtered, filter_by_timeframe. rewrite Hall.
  destruct (deref h (transactions self)) as [|t l] eqn:E.
  - change (deref (snd (alloc h [])) (fst (alloc h [])) =
            firstn (window timeframe) (sorted_newest_first [])).
    rewrite deref_alloc_new. now rewrite firstn_nil.
  - set (v := firstn (window timeframe) (sorted_newest_first (t :: l))).
    change (deref (snd (alloc h v)) (fst (alloc h v)) = v).
    apply deref_alloc_new.
Qed.

Lemma on_date_firstn (d : str) (n : nat) (l : list transaction) :
  exists rest, on_date d l = on_date d (firstn n l) ++ rest.
Proof.
  exists (on_date d (skipn n l)).
  now rewrite <- on_date_app, firstn_skipn.
Qed.

Lemma window_cases (timeframe : str) :
  window timeframe = 7%nat \/ window timeframe = 30%nat
  \/ window timeframe = 90%nat \/ window timeframe = 365%nat.
Proof.
  unfold window.
  destruct (contains (py "month") (lower timeframe)).
  - destruct (contains (py "three") timeframe || contains (py "3") timeframe); auto.
  - destruct (contains (py "week") (lower timeframe)); auto.
    destruct (contains (py "year") (lower timeframe)); auto.
Qed.

(** The selection is a window on the batch sorted newest first: a
    rearrangement of the batch, no record before one of a later date, cut
    after the first [window timeframe] records. *)
Lemma filtered_most_recent (self : GPPayAnalyzer) (timeframe : str) (h : heap) :
  str_eqb timeframe (py "all") = false ->
  exists sorted_txns,
    Permutation sorted_txns (deref h (transactions self)) /\
    newest_first sorted_txns = true /\
    filtered self timeframe h = firstn (window timeframe) sorted_txns /\
    List.length (filtered self timeframe h) =
      Nat.min (window timeframe) (List.length (deref h (transactions self))).
Proof.
  intros Hall. exists (sorted_newest_first (deref h (transactions self))).
  split; [apply sorted_newest_first_perm|].
  split; [apply sorted_newest_first_sorted|].
  split; [now apply filtered_window|].
  rewrite (filtered_window _ _ _ Hall), length_firstn.
  now rewrite (Permutation_length (sorted_newest_first_perm _)).
Qed.

Lemma filtered_one_week (self : GPPayAnalyzer) (h : heap) :
  filtered self (py "one week") h =
    firstn 7 (sorted_newest_first (deref h (transactions self))) /\
  List.length (filtered self (py "one week") h) =
    Nat.min 7 (List.length (deref h (transactions self))).
Proof.
  split.
  - now rewrite filtered_window.
  - destruct (@filtered_most_recent self (py "one week") h eq_refl)
      as (s & _ & _ & _ & Hlen). exact Hlen.
Qed.

(** C10.  The filter keeps records of equal date in the order they had in
    the batch: the sort it uses leaves the records of every date in their
    order, and for every selector (so for every selector other than ["all"])
    the records of a date in the selection are the first ones of that date in
    the batch, in the same order. *)
Theorem C10_filter_is_stable_on_equal_dates
    (self : GPPayAnalyzer) (timeframe : str) (h : heap) (d : str) :
  on_date d (sorted_newest_first (deref h (transactions self)))
    = on_date d (deref h (transactions self)) /\
  exists rest,
    on_date d (deref h (transactions self))
      = on_date d (filtered self timeframe h) ++ rest.
Proof.
  split; [apply sorted_newest_first_stable|].
  destruct (str_eqb timeframe (py "all")) eqn:Hall.
  - apply str_eqb_eq in Hall. subst timeframe. rewrite filtered_all.
    exists []. now rewrite app_nil_r.
  - rewrite (filtered_window _ _ _ Hall).
    destruct (on_date_firstn d (window timeframe)
                (sorted_newest_first (deref h (transactions self))))
      as [rest Hrest].
    exists rest. rewrite <- Hrest. symmetry. apply sorted_newest_first_stable.
Qed.

(** C9, as the code has it.  The filter changes no list object that existed
    before the call, so the batch the analyzer holds keeps its content and
    order.  For a selector other than ["all"] the list returned is a new
    object; for ["all"] it is the held list itself.  The list returned for an
    empty batch is empty. *)
Theorem C9_filter_frame (self : GPPayAnalyzer) (timeframe : str) (h : heap) :
  (transactions self < List.length h)%nat ->
  let l := fst (filter_by_timeframe self timeframe h) in
  let h' := snd (filter_by_timeframe self timeframe h) in
  firstn (List.length h) h' = h /\
  deref h' (transactions self) = deref h (transactions self) /\
  (if str_eqb timeframe (py "all")
   then l = transactions self /\ h' = h
   else l = List.length h /\ List.length h' = S (List.length h)) /\
  match deref h (transactions self) with
  | [] => deref h' l = []
  | _ :: _ => True
  end.
Proof.
  intros Hheld. cbv zeta. unfold filter_by_timeframe.
  destruct (str_eqb timeframe (py "all")) eqn:Hall.
  - simpl. rewrite firstn_all. repeat split; auto.
    destruct (deref h (transactions self)) eqn:E; auto.
  - destruct (deref h (transactions self)) as [|t l] eqn:E.
    + rewrite alloc_keeps, deref_alloc_new, (deref_alloc_old _ _ Hheld), E.
      repeat split; auto. simpl. rewrite length_app. simpl. lia.
    + rewrite alloc_keeps, (deref_alloc_old _ _ Hheld), E.
      repeat split; auto. simpl. rewrite length_app. simpl. lia.
Qed.

Lemma C9_filter_frame_witness :
  (transactions holder < List.length (heap_of 3))%nat /\
  deref (snd (filter_by_timeframe holder (py "one week") (heap_of 3)))
        (transactions holder)
    = deref (heap_of 3) (transactions holder).
Proof.
  assert (H : (transactions holder < List.length (heap_of 3))%nat)
    by (simpl; lia).
  split; [exact H|].
  exact (proj1 (proj2 (@C9_filter_frame holder (py "one week") (heap_of 3) H))).
Defined.

(** C9, as stated, fails: with the selector ["all"] the list returned is no
    new sequence, it is the list object the analyzer holds. *)
Lemma C9_all_returns_the_held_list :
  fst (filter_by_timeframe holder (py "all") (heap_of 3)) = transactions holder /\
  ~ (List.length (heap_of 3)
       <= fst (filter_by_timeframe holder (py "all") (heap_of 3)))%nat.
Proof. split; [reflexivity|]. simpl. lia. Qed.



(** C5.  For ["one week"] the filter returns the first seven records of the
    batch sorted newest first, [min 7 (len records)] of them, and the
    selectors are looked up without regard to case for ["month"], ["week"]
    and ["year"].  Where the code misses the claim: ["THREE MONTHS"] contains
    ["month"] and ["three"] when case is ignored, yet on a batch of 91
    records the filter returns 30 records, not 90: [window] looks ["three"]
    up in the selector as written, while it lowers the selector for the
    other words.  The selector ["three months"] gives the 90. *)
Theorem C5_three_is_matched_case_sensitively (self : GPPayAnalyzer) (h : heap) :
  (filtered self (py "one week") h =
     firstn 7 (sorted_newest_first (deref h (transactions self))) /\
   List.length (filtered self (py "one week") h) =
     Nat.min 7 (List.length (deref h (transactions self)))) /\
  (window (py "Last WEEK") = 7 /\ window (py "This Year") = 365 /\
   window (py "MONTH") = 30 /\ window (py "3 Months") = 90 /\
   window (py "three months") = 90 /\ window (py "yesterday") = 30)%nat /\
  contains (py "month") (lower (py "THREE MONTHS")) = true /\
  contains (py "three") (lower (py "THREE MONTHS")) = true /\
  List.length (filtered holder (py "THREE MONTHS") (heap_of 91)) = 30%nat /\
  List.length (filtered holder (py "three months") (heap_of 91)) = 90%nat.
Proof.
  split; [apply filtered_one_week|].
  repeat split; vm_compute; reflexivity.
Qed.

(** C4.  On no record the tool returns its marker ["No transactions to
    analyze"]: no report, hence no mean and no NaN, and no exception.  An
    analyzer that holds an empty batch answers every query and timeframe
    with the marker ["No transactions found for timeframe: ..."]. *)
Theorem C4_empty_batch_gives_the_marker
    (self : GPPayAnalyzer) (query timeframe : str) (h : heap) :
  deref h (transactions self) = [] ->
  analyze_transaction_data [] = NoTransactions /\
  fst (analyze_with_crewai self query timeframe h) = NoTransactionsFound timeframe.
Proof.
  intros Hempty. split; [reflexivity|].
  unfold analyze_with_crewai, filter_by_timeframe.
  destruct (str_eqb timeframe (py "all")).
  - now rewrite Hempty.
  - rewrite Hempty.
    change (fst (match deref (snd (alloc h [])) (fst (alloc h [])) with
                 | [] => (NoTransactionsFound timeframe, snd (alloc h []))
                 | _ :: _ => (Analysed (fst (alloc h [])), snd (alloc h []))
                 end) = NoTransactionsFound timeframe).
    now rewrite deref_alloc_new.
Qed.

Lemma C4_empty_batch_witness :
  deref (heap_of 0) (transactions holder) = [] /\
  fst (analyze_with_crewai holder (py "where did my money go") (py "one month")
         (heap_of 0))
    = NoTransactionsFound (py "one month").
Proof.
  assert (H : deref (heap_of 0) (transactions holder) = []) by reflexivity.
  split; [exact H|].
  exact (proj2 (@C4_empty_batch_gives_the_marker holder
                  (py "where did my money go") (py "one month") (heap_of 0) H)).
Defined.

(** ** The matcher *)

Lemma starts_with_app (w s : str) :
  starts_with w s = true -> s = w ++ skipn (List.length w) s.
Proof.
  revert s; induction w as [|x w IH]; intros [|y s]; simpl; try congruence.
  intros H. apply andb_true_iff in H as [Hxy Hw]. apply N.eqb_eq in Hxy.
  subst y. f_equal. now apply IH.
Qed.

Lemma starts_with_refl (w s : str) : starts_with w (w ++ s) = true.
Proof. induction w as [|x w IH]; simpl; auto. now rewrite N.eqb_refl. Qed.

Lemma run_cat (r1 r2 : regex) (s : str) (caps : captures) k :
  run (Cat r1 r2) s caps k = run r1 s caps (fun s' caps' => run r2 s' caps' k).
Proof. reflexivity. Qed.

Lemma run_alt (r1 r2 : regex) (s : str) (caps : captures) k :
  run (Alt r1 r2) s caps k = or_else (run r1 s caps k) (run r2 s caps k).
Proof. reflexivity. Qed.

Lemma run_rep g lo hi p (s : str) (caps : captures) k :
  run (Rep g lo hi p) s caps k = rep g p lo hi s (fun s' => k s' caps).
Proof. reflexivity. Qed.

Lemma run_grp i r (s : str) (caps : captures) k :
  run (Grp i r) s caps k =
  run r s caps
    (fun s' caps' => k s' ((i, firstn (List.length s - List.length s') s) :: caps')).
Proof. reflexivity. Qed.

(** A literal word matches where the text starts with it. *)
Lemma run_lit (w s : str) (caps : captures) k :
  w <> [] ->
  run (lit w) s caps k =
  if starts_with w s then k (skipn (List.length w) s) caps else None.
Proof.
  revert s; induction w as [|x w IH]; intros s Hw; [congruence|].
  destruct w as [|y w].
  - destruct s as [|c s]; simpl; auto.
    rewrite (N.eqb_sym x c). destruct (c =? x); auto.
  - change (lit (x :: y :: w)) with (Cat (Chr x) (lit (y :: w))).
    rewrite run_cat. destruct s as [|c s]; [reflexivity|].
    change (starts_with (x :: y :: w) (c :: s))
      with ((x =? c) && starts_with (y :: w) s).
    change (run (Chr x) (c :: s) caps
              (fun s' caps' => run (lit (y :: w)) s' caps' k))
      with (if c =? x then run (lit (y :: w)) s caps k else None).
    rewrite (N.eqb_sym x c). destruct (c =? x); [|reflexivity].
    rewrite IH by congruence. reflexivity.
Qed.

(** What a repeated class took is a run of the class, of a length the
    bounds allow, and the rest of the pattern matched what follows. *)
Lemma rep_sound {A : Type} g p lo hi (s : str) (k : str -> option A) x :
  rep g p lo hi s k = Some x ->
  exists a b, s = a ++ b /\ forallb p a = true /\ (lo <= List.length a)%nat /\
              k b = Some x.
Proof.
  revert lo hi. induction s as [|c s IH]; intros lo hi H.
  - destruct lo; simpl in H; [|discriminate].
    exists [], []. repeat split; auto.
    destruct g; simpl in H; auto. destruct (k []); simpl in H; congruence.
  - assert (Hmore : (if p c && hi_allows hi
                     then rep g p (Nat.pred lo) (hi_pred hi) s k else None)
                    = Some x ->
                    exists a b, c :: s = a ++ b /\ forallb p a = true /\
                                (lo <= List.length a)%nat /\ k b = Some x).
    { destruct (p c) eqn:Hp; simpl; [|discriminate].
      destruct (hi_allows hi); [|discriminate]. intros Hr.
      apply IH in Hr as (a & b & -> & Ha & Hlen & Hk).
      exists (c :: a), b. simpl. rewrite Hp, Ha. repeat split; auto. lia. }
    destruct lo as [|lo]; [|exact (Hmore H)].
    change (rep g p 0 hi (c :: s) k) with
      (if g
       then or_else (if p c && hi_allows hi
                     then rep g p (Nat.pred 0) (hi_pred hi) s k else None)
                    (k (c :: s))
       else or_else (k (c :: s))
                    (if p c && hi_allows hi
                     then rep g p (Nat.pred 0) (hi_pred hi) s k else None)) in H.
    assert (Hzero : k (c :: s) = Some x ->
                    exists a b, c :: s = a ++ b /\ forallb p a = true /\
                                (0 <= List.length a)%nat /\ k b = Some x).
    { intros Hk. exists [], (c :: s). repeat split; auto. }
    destruct g; unfold or_else in H.
    + destruct (if p c && hi_allows hi
                then rep true p (Nat.pred 0) (hi_pred hi) s k else None) eqn:E.
      * apply Hmore. congruence.
      * now apply Hzero.
    + destruct (k (c :: s)) eqn:E.
      * apply Hzero. congruence.
      * now apply Hmore.
Qed.

(** A lazy repetition stops at the first place, from the least length on,
    where the rest of the pattern matches. *)
Lemma rep_lazy_first {A : Type} p lo (s : str) (k : str -> option A) x :
  rep false p lo None s k = Some x ->
  exists a b, s = a ++ b /\ forallb p a = true /\ (lo <= List.length a)%nat /\
              k b = Some x /\
              forall a1 a2, a = a1 ++ a2 -> (lo <= List.length a1)%nat ->
                            a2 <> [] -> k (a2 ++ b) = None.
Proof.
  revert lo. induction s as [|c s IH]; intros lo H.
  - destruct lo; simpl in H; [|discriminate].
    exists [], []. repeat split; auto.
    + destruct (k []); simpl in H; congruence.
    + intros a1 a2 E _ Ha2. symmetry in E. apply app_eq_nil in E as [_ E].
      contradiction.
  - assert (Hmore : forall n,
              (if p c && true then rep false p n None s k else None) = Some x ->
              exists a' b, s = a' ++ b /\ p c = true /\ forallb p a' = true /\
                           (n <= List.length a')%nat /\ k b = Some x /\
                           forall a1 a2, a' = a1 ++ a2 ->
                                         (n <= List.length a1)%nat ->
                                         a2 <> [] -> k (a2 ++ b) = None).
    { intros n. destruct (p c) eqn:Hp; simpl; [|discriminate]. intros Hr.
      apply IH in Hr as (a & b & -> & Ha & Hlen & Hk & Hmin).
      exists a, b. repeat split; auto. }
    destruct lo as [|lo].
    + change (rep false p 0 None (c :: s) k) with
        (or_else (k (c :: s))
                 (if p c && true then rep false p 0 None s k else None)) in H.
      unfold or_else in H. destruct (k (c :: s)) eqn:E.
      * exists [], (c :: s). repeat split; auto; try congruence.
        intros a1 a2 E' _ Ha2. symmetry in E'.
        apply app_eq_nil in E' as [_ E']. contradiction.
      * apply Hmore in H as (a & b & -> & Hp & Ha & Hlen & Hk & Hmin).
        exists (c :: a), b. simpl. rewrite Hp, Ha. repeat split; auto; try lia.
        intros a1 a2 E' _ Ha2. destruct a1 as [|c1 a1].
        -- simpl in E'. subst a2. exact E.
        -- injection E' as -> E'. apply (Hmin a1 a2); auto. lia.
    + change (rep false p (S lo) None (c :: s) k) with
        (if p c && true then rep false p lo None s k else None) in H.
      apply Hmore in H as (a & b & -> & Hp & Ha & Hlen & Hk & Hmin).
      exists (c :: a), b. simpl. rewrite Hp, Ha. repeat split; auto; try lia.
      intros a1 a2 E' Hl Ha2. destruct a1 as [|c1 a1]; [simpl in Hl; lia|].
      injection E' as -> E'. apply (Hmin a1 a2); auto. simpl in Hl. lia.
Qed.

Lemma span_app (p : N -> bool) (s : str) :
  s = fst (span p s) ++ snd (span p s) /\ forallb p (fst (span p s)) = true /\
  match snd (span p s) with c :: _ => p c = false | [] => True end.
Proof.
  induction s as [|c s IH]; simpl; auto.
  destruct (p c) eqn:Hp.
  - destruct (span p s) as [a b]. simpl in *. destruct IH as (E & Ha & Hb).
    rewrite Hp, Ha. repeat split; auto. now f_equal.
  - simpl. now rewrite Hp.
Qed.

(** A greedy repetition before a pattern that cannot start in the class
    takes the whole run of the class. *)
Lemma rep_greedy_span {A : Type} p lo (s : str) (k : str -> option A) :
  (forall c s', p c = true -> k (c :: s') = None) ->
  rep true p lo None s k =
  if Nat.leb lo (List.length (fst (span p s))) then k (snd (span p s)) else None.
Proof.
  intros Hk. revert lo. induction s as [|c s IH]; intros lo.
  - destruct lo; simpl; auto.
  - destruct lo as [|lo].
    + change (rep true p 0 None (c :: s) k) with
        (or_else (if p c && true then rep true p 0 None s k else None)
                 (k (c :: s))).
      simpl span. destruct (p c) eqn:Hp.
      * simpl andb. cbv iota. rewrite IH, (Hk c s Hp).
        destruct (span p s) as [a b]. simpl.
        destruct (k b); reflexivity.
      * reflexivity.
    + change (rep true p (S lo) None (c :: s) k) with
        (if p c && true then rep true p lo None s k else None).
      simpl span. destruct (p c) eqn:Hp.
      * simpl andb. cbv iota. rewrite IH.
        destruct (span p s) as [a b]. reflexivity.
      * reflexivity.
Qed.

(** Whatever a match gives, the rest of the pattern gave it. *)
Lemma run_result (r : regex) (s : str) (caps : captures) k x :
  run r s caps k = Some x -> exists s' caps', k s' caps' = Some x.
Proof.
  revert s caps k. induction r; intros s caps k H; simpl in H.
  - destruct s as [|y s]; [discriminate|]. destruct (y =? c); [|discriminate].
    eauto.
  - destruct s as [|y s]; [discriminate|]. destruct (p y); [|discriminate].
    eauto.
  - apply rep_sound in H as (a & b & _ & _ & _ & Hk). eauto.
  - apply IHr1 in H as (s1 & c1 & H). apply IHr2 in H. exact H.
  - unfold or_else in H. destruct (run r1 s caps k) eqn:E.
    + injection H as ->. eapply IHr1, E.
    + eapply IHr2, H.
  - unfold or_else in H. destruct (run r s caps k) eqn:E.
    + injection H as ->. eapply IHr, E.
    + eauto.
  - apply IHr in H as (s1 & c1 & H). eauto.
  - destruct (at_end s); [|discriminate]. eauto.
Qed.

(** The leftmost match: the pattern matched at the start of a suffix. *)
Lemma search_sound (r : regex) (s : str) (caps : captures) :
  search r s = Some caps ->
  exists pre s' rest,
    s = pre ++ s' /\
    run r s' [] accept = Some ((0%nat, rest) :: caps).
Proof.
  assert (Hat : forall s0 caps0 rest0,
             match_at r s0 = Some (caps0, rest0) ->
             run r s0 [] accept = Some ((0%nat, rest0) :: caps0)).
  { intros s0 caps0 rest0 H. unfold match_at in H.
    destruct (run r s0 [] accept) as [x|] eqn:E;
      [|discriminate].
    destruct (run_result _ _ _ _ E) as (s1 & c1 & Hx). injection Hx as <-.
    now injection H as -> ->. }
  induction s as [|c s IH]; intros H; simpl in H.
  - destruct (match_at r []) as [[caps0 rest0]|] eqn:E; [|discriminate].
    injection H as ->. exists [], [], rest0. split; auto.
  - destruct (match_at r (c :: s)) as [[caps0 rest0]|] eqn:E.
    + injection H as ->. exists [], (c :: s), rest0. split; auto.
    + apply IH in H as (pre & s' & rest & -> & H).
      exists (c :: pre), s', rest. split; auto.
Qed.

Lemma space_differs (x c : N) :
  is_space x = false -> is_space c = true -> (x =? c) = false.
Proof.
  intros Hx Hc. destruct (x =? c) eqn:E; [|reflexivity].
  apply N.eqb_eq in E. congruence.
Qed.

Lemma space_is_no_x (c : N) : is_space c = true -> is_x c = false.
Proof.
  intros Hc. unfold is_x.
  destruct (c =? 88) eqn:E1; [apply N.eqb_eq in E1; subst c; discriminate|].
  destruct (c =? 120) eqn:E2; [apply N.eqb_eq in E2; subst c; discriminate|].
  reflexivity.
Qed.

Lemma span_all (p : N -> bool) (s : str) :
  forallb p s = true -> span p s = (s, []).
Proof.
  induction s as [|c s IH]; simpl; auto.
  intros H. apply andb_true_iff in H as [Hc Hs]. now rewrite Hc, (IH Hs).
Qed.

Lemma span_rest_nil (p : N -> bool) (s : str) :
  snd (span p s) = [] -> forallb p s = true.
Proof.
  intros H. destruct (span_app p s) as (E & Ha & _). rewrite H, app_nil_r in E.
  now rewrite E.
Qed.

Lemma at_end_blank (s : str) : at_end s = true -> forallb is_space s = true.
Proof.
  destruct s as [|c [|d s]]; simpl; auto; [|discriminate].
  intros H. apply N.eqb_eq in H. now subst c.
Qed.

(** [\s+w] for a word [w] that does not start with whitespace. *)
Lemma run_space_word (x : N) (w s : str) (caps : captures) k :
  is_space x = false ->
  run (Cat (plus is_space) (lit (x :: w))) s caps k =
  if negb (str_eqb (fst (span is_space s)) [])
     && starts_with (x :: w) (snd (span is_space s))
  then k (skipn (List.length (x :: w)) (snd (span is_space s))) caps
  else None.
Proof.
  intros Hx. rewrite run_cat. unfold plus. rewrite run_rep.
  rewrite rep_greedy_span.
  - rewrite run_lit by congruence.
    destruct (fst (span is_space s)); simpl; auto.
  - intros c s' Hc. rewrite run_lit by congruence.
    simpl. now rewrite (space_differs _ _ Hx Hc).
Qed.

Lemma marker_accept (s : str) (caps : captures) :
  (marker_follows s = true ->
   exists rest, run marker_re s caps accept = Some ((0%nat, rest) :: caps)) /\
  (marker_follows s = false -> run marker_re s caps accept = None).
Proof.
  unfold marker_re, marker_follows. rewrite run_alt.
  change (py "using") with (117 :: py "sing").
  change (py "on") with (111 :: py "n").
  rewrite !run_space_word by reflexivity.
  set (blank := negb (str_eqb (fst (span is_space s)) [])).
  set (word1 := starts_with (117 :: py "sing") (snd (span is_space s))).
  set (word2 := starts_with (111 :: py "n") (snd (span is_space s))).
  unfold accept, or_else.
  destruct blank, word1, word2; cbn [andb orb];
    split; intros H; try discriminate H; eauto.
Qed.

Lemma rep_greedy_accepts p (s : str) (caps : captures) :
  exists rest, rep true p 0 None s (fun s' => accept s' caps)
               = Some ((0%nat, rest) :: caps).
Proof.
  destruct s as [|c s].
  - simpl. unfold accept. eauto.
  - change (rep true p 0 None (c :: s) (fun s' => accept s' caps)) with
      (or_else (if p c && true
                then rep true p 0 None s (fun s' => accept s' caps) else None)
               (accept (c :: s) caps)).
    destruct (if p c && true
              then rep true p 0 None s (fun s' => accept s' caps) else None)
      as [x|] eqn:E.
    + assert (Hx : exists a b, s = a ++ b /\ forallb p a = true /\
                               (0 <= List.length a)%nat /\ accept b caps = Some x).
      { destruct (p c && true); [|discriminate]. now apply rep_sound in E. }
      destruct Hx as (a & b & _ & _ & _ & Hx). unfold accept in Hx.
      injection Hx as <-. simpl. eauto.
    + simpl. unfold accept. eauto.
Qed.

(** [\s*$] matches where only whitespace is left. *)
Lemma blank_to_end_accept (s : str) (caps : captures) :
  (snd (span is_space s) = [] ->
   exists rest, run (Cat (star is_space) Eos) s caps accept
                = Some ((0%nat, rest) :: caps)) /\
  (snd (span is_space s) <> [] ->
   run (Cat (star is_space) Eos) s caps accept = None).
Proof.
  rewrite run_cat. unfold star. rewrite run_rep. split.
  - intros H. apply span_rest_nil in H.
    induction s as [|c s IH].
    + simpl. unfold accept. eauto.
    + simpl in H. apply andb_true_iff in H as [Hc Hs].
      destruct (IH Hs) as [rest Hrest].
      change (rep true is_space 0 None (c :: s)
                (fun s' => run Eos s' caps accept))
        with (or_else (if is_space c && true
                       then rep true is_space 0 None s
                              (fun s' => run Eos s' caps accept)
                       else None)
                      (run Eos (c :: s) caps accept)).
      rewrite Hc. simpl andb. cbv iota. rewrite Hrest. simpl. eauto.
  - intros H.
    destruct (rep true is_space 0 None s (fun s' => run Eos s' caps accept))
      as [x|] eqn:E; [|reflexivity].
    exfalso. apply H.
    apply rep_sound in E as (a & b & -> & Ha & _ & Hb).
    simpl in Hb. destruct (at_end b) eqn:Eb; [|discriminate].
    apply at_end_blank in Eb.
    rewrite span_all; [reflexivity|].
    rewrite forallb_app. now rewrite Ha, Eb.
Qed.

Lemma method_end_accept (s : str) (caps : captures) :
  (mask_or_end_follows s = true ->
   exists rest, run method_end_re s caps accept = Some ((0%nat, rest) :: caps)) /\
  (mask_or_end_follows s = false -> run method_end_re s caps accept = None).
Proof.
  unfold method_end_re, mask_or_end_follows. rewrite run_alt.
  destruct (blank_to_end_accept s caps) as [Hend Hnot].
  assert (Hmask : run (Cat (plus is_space) (plus is_x)) s caps accept =
                  if negb (str_eqb (fst (span is_space s)) [])
                  then rep true is_x 1 None (snd (span is_space s))
                         (fun s' => accept s' caps)
                  else None).
  { rewrite run_cat. unfold plus. rewrite run_rep, rep_greedy_span.
    - rewrite run_rep. destruct (fst (span is_space s)); reflexivity.
    - intros c s' Hc. rewrite run_rep.
      change (rep true is_x 1 None (c :: s') (fun s'0 => accept s'0 caps))
        with (if is_x c && true
              then rep true is_x 0 None s' (fun s'0 => accept s'0 caps)
              else None).
      now rewrite (space_is_no_x _ Hc). }
  rewrite Hmask. clear Hmask.
  destruct (snd (span is_space s)) as [|c rest] eqn:Erest.
  - rewrite andb_false_r. simpl orb.
    split; [|discriminate]. intros _.
    destruct (Hend eq_refl) as [r Hr]. rewrite Hr.
    destruct (negb (str_eqb (fst (span is_space s)) [])); simpl; eauto.
  - assert (Hn : run (Cat (star is_space) Eos) s caps accept = None)
      by (apply Hnot; congruence).
    rewrite Hn. simpl str_eqb. rewrite orb_false_r.
    destruct (negb (str_eqb (fst (span is_space s)) [])); simpl andb;
      [|split; [discriminate|reflexivity]].
    change (rep true is_x 1 None (c :: rest) (fun s' => accept s' caps))
      with (if is_x c && true
            then rep true is_x 0 None rest (fun s' => accept s' caps)
            else None).
    destruct (is_x c); simpl andb; cbv iota.
    + split; [|discriminate]. intros _.
      destruct (rep_greedy_accepts is_x rest caps) as [r Hr]. rewrite Hr.
      simpl. eauto.
    + split; [discriminate|reflexivity].
Qed.

(** The shape the recipient and the method patterns share: a word,
    whitespace, a lazily repeated class in group 1, and a tail.  Where such a
    pattern is found, group 1 is a non-empty run of the class that the tail
    follows, and the tail follows no shorter non-empty start of it. *)
Lemma word_group_tail (w : str) (cls : N -> bool) (tail : regex)
    (follows : str -> bool) :
  w <> [] ->
  (forall s caps, follows s = true ->
     exists rest, run tail s caps accept = Some ((0%nat, rest) :: caps)) ->
  (forall s caps, follows s = false -> run tail s caps accept = None) ->
  forall text caps,
    search (seq [lit w; plus is_space; Grp 1 (lazy_plus cls); tail]) text
      = Some caps ->
    exists pre ws post,
      text = pre ++ w ++ ws ++ group 1 caps ++ post /\
      ws <> [] /\ forallb is_space ws = true /\
      group 1 caps <> [] /\ forallb cls (group 1 caps) = true /\
      follows post = true /\
      forall g1 g2, group 1 caps = g1 ++ g2 -> g1 <> [] -> g2 <> [] ->
                    follows (g2 ++ post) = false.
Proof.
  intros Hw Hyes Hno text caps H.
  apply search_sound in H as (pre & s0 & rest & -> & H).
  change (seq [lit w; plus is_space; Grp 1 (lazy_plus cls); tail])
    with (Cat (lit w) (Cat (plus is_space) (Cat (Grp 1 (lazy_plus cls)) tail)))
    in H.
  rewrite run_cat, run_lit in H by exact Hw.
  destruct (starts_with w s0) eqn:Ew; [|discriminate].
  apply starts_with_app in Ew. set (s1 := skipn (List.length w) s0) in *.
  rewrite run_cat in H. unfold plus in H. rewrite run_rep in H.
  apply rep_sound in H as (ws & s2 & E1 & Hws & Hlen & H).
  rewrite run_cat, run_grp in H. unfold lazy_plus in H. rewrite run_rep in H.
  apply rep_lazy_first in H as (g & post & E2 & Hg & Hglen & H & Hmin).
  subst s2. cbv beta in H, Hmin.
  replace (firstn (List.length (g ++ post) - List.length post) (g ++ post))
    with g in *
    by (rewrite length_app, Nat.add_sub, firstn_app, Nat.sub_diag, firstn_all;
        simpl; now rewrite app_nil_r).
  destruct (follows post) eqn:Ef;
    [|pose proof (eq_trans (eq_sym (Hno post [(1%nat, g)] Ef)) H) as Habs;
      discriminate Habs].
  destruct (Hyes post [(1%nat, g)] Ef) as [rest' Hrest'].
  pose proof (eq_trans (eq_sym Hrest') H) as Hcaps. injection Hcaps as _ <-.
  change (group 1 [(1%nat, g)]) with g.
  exists pre, ws, post. rewrite Ew, E1.
  repeat split; auto.
  - destruct ws; [simpl in Hlen; lia|congruence].
  - destruct g; [simpl in Hglen; lia|congruence].
  - intros g1 g2 Eg Hg1 Hg2.
    assert (Hl : (1 <= List.length g1)%nat)
      by (destruct g1; [congruence|simpl; lia]).
    specialize (Hmin g1 g2 Eg Hl Hg2).
    destruct (follows (g2 ++ post)) eqn:Ef2; [|reflexivity].
    match type of Hmin with
    | run _ _ ?c _ = _ => destruct (Hyes (g2 ++ post) c Ef2) as [r Hr]
    end.
    pose proof (eq_trans (eq_sym Hr) Hmin) as Habs. discriminate Habs.
Qed.

(** Where the recipient pattern is found. *)
Lemma recipient_match (text : str) (rm : captures) :
  search recipient_re text = Some rm ->
  exists pre ws post,
    text = pre ++ py "to" ++ ws ++ group 1 rm ++ post /\
    ws <> [] /\ forallb is_space ws = true /\
    group 1 rm <> [] /\ forallb any_char (group 1 rm) = true /\
    marker_follows post = true /\
    forall g1 g2, group 1 rm = g1 ++ g2 -> g1 <> [] -> g2 <> [] ->
                  marker_follows (g2 ++ post) = false.
Proof.
  apply word_group_tail.
  - discriminate.
  - intros s caps. apply marker_accept.
  - intros s caps. apply marker_accept.
Qed.

(** Where the method pattern is found. *)
Lemma method_match (text : str) (mm : captures) :
  search method_re text = Some mm ->
  exists pre ws post,
    text = pre ++ py "using" ++ ws ++ group 1 mm ++ post /\
    ws <> [] /\ forallb is_space ws = true /\
    group 1 mm <> [] /\ forallb method_char (group 1 mm) = true /\
    mask_or_end_follows post = true /\
    forall g1 g2, group 1 mm = g1 ++ g2 -> g1 <> [] -> g2 <> [] ->
                  mask_or_end_follows (g2 ++ post) = false.
Proof.
  apply word_group_tail.
  - discriminate.
  - intros s caps. apply method_end_accept.
  - intros s caps. apply method_end_accept.
Qed.

(** ** The extractor *)

Lemma format_date_some (d m y df : str) :
  format_date d m y = Ok (Some df) <->
  exists t, strptime (d ++ py " " ++ m ++ py " " ++ y) = Ok t /\ df = strftime t.
Proof.
  unfold format_date. split.
  - destruct (strptime (d ++ py " " ++ m ++ py " " ++ y)) as [t|[|]];
      intros H; try discriminate. injection H as <-. eauto.
  - intros (t & -> & ->). reflexivity.
Qed.

(** What a block that adds a record looks like, and the record it adds. *)
Lemma process_block_some (i : nat) (b : block) (t : transaction) :
  process_block i b = Ok (Some t) <->
  exists nodes am rm dm a dt,
    main_text b = Some nodes /\
    search amount_re (get_text nodes) = Some am /\
    search recipient_re (get_text nodes) = Some rm /\
    search date_re (get_text nodes) = Some dm /\
    py_float (remove_commas (group 1 am)) = Ok a /\
    strptime (date_text dm) = Ok dt /\
    t = {| amount := a;
           recipient := strip (group 1 rm);
           date := strftime dt;
           payment_method := method_of (get_text nodes);
           id := py "tx_" ++ decimal (N.of_nat i) |}.
Proof.
  unfold process_block, method_of, date_text. split.
  - destruct (main_text b) as [nodes|]; [|discriminate].
    destruct (search amount_re (get_text nodes)) as [am|] eqn:Ea;
      [|discriminate].
    destruct (search recipient_re (get_text nodes)) as [rm|] eqn:Er;
      [|discriminate].
    destruct (search date_re (get_text nodes)) as [dm|] eqn:Edm;
      [|discriminate].
    destruct (py_float (remove_commas (group 1 am))) as [a|e] eqn:Ef;
      [|discriminate].
    simpl bind.
    destruct (format_date (group 1 dm) (group 2 dm) (group 3 dm))
      as [[df|]|e] eqn:Ed; simpl bind; try discriminate.
    intros H. injection H as <-.
    apply format_date_some in Ed as (dt & Hdt & ->).
    exists nodes, am, rm, dm, a, dt. repeat split; auto.
  - intros (nodes & am & rm & dm & a & dt & -> & -> & -> & -> & -> & Hdt & ->).
    simpl bind.
    assert (Ed : format_date (group 1 dm) (group 2 dm) (group 3 dm)
                 = Ok (Some (strftime dt)))
      by (apply format_date_some; eauto).
    rewrite Ed. reflexivity.
Qed.

Lemma extract_loop_acc (i : nat) (blocks : list block) (acc : list transaction) :
  extract_loop i blocks acc = acc ++ extract_loop i blocks [].
Proof.
  revert i acc. induction blocks as [|b blocks IH]; intros i acc; simpl.
  - now rewrite app_nil_r.
  - destruct (process_block i b) as [[t|]|e].
    + rewrite (IH (S i) (acc ++ [t])), (IH (S i) [t]).
      now rewrite <- app_assoc.
    + apply IH.
    + apply IH.
Qed.

Lemma extract_loop_cons (i : nat) (b : block) (blocks : list block) :
  extract_loop i (b :: blocks) [] = emitted i b ++ extract_loop (S i) blocks [].
Proof.
  unfold emitted. simpl. destruct (process_block i b) as [[t|]|e]; auto.
  apply extract_loop_acc.
Qed.

Lemma extract_loop_app (i : nat) (pre post : list block) :
  extract_loop i (pre ++ post) [] =
  extract_loop i pre [] ++ extract_loop (i + List.length pre) post [].
Proof.
  revert i. induction pre as [|b pre IH]; intros i.
  - simpl. now rewrite Nat.add_0_r.
  - change ((b :: pre) ++ post) with (b :: (pre ++ post)).
    rewrite !extract_loop_cons, IH, <- app_assoc. simpl List.length.
    now rewrite Nat.add_succ_r.
Qed.

(** Every record of the result is the record of one block. *)
Lemma extract_loop_in (i : nat) (blocks : list block) (t : transaction) :
  In t (extract_loop i blocks []) ->
  exists k b, nth_error blocks k = Some b /\
              process_block (i + k) b = Ok (Some t).
Proof.
  revert i. induction blocks as [|b blocks IH]; intros i H; [contradiction|].
  rewrite extract_loop_cons in H. apply in_app_or in H as [H|H].
  - unfold emitted in H.
    destruct (process_block i b) as [[t'|]|e] eqn:E; try contradiction.
    destruct H as [->|[]]. exists 0%nat, b. now rewrite Nat.add_0_r.
  - apply IH in H as (k & b' & Hk & Hp). exists (S k), b'.
    now rewrite Nat.add_succ_r.
Qed.

(** ** The match the search takes *)

Lemma rep_zero_complete {A : Type} g p (s : str) (k : str -> option A) :
  k s <> None -> rep g p 0 None s k <> None.
Proof.
  intros Hk. destruct s as [|c s].
  - destruct g; simpl; unfold or_else; destruct (k []); congruence.
  - change (rep g p 0 None (c :: s) k) with
      (if g
       then or_else (if p c && true then rep g p 0 None s k else None)
                    (k (c :: s))
       else or_else (k (c :: s))
                    (if p c && true then rep g p 0 None s k else None)).
    unfold or_else.
    destruct g; destruct (k (c :: s)); try congruence;
      match goal with
      | |- context [if ?b then ?r else None] =>
          destruct (if b then r else None); congruence
      end.
Qed.

(** A repetition finds a match where there is one. *)
Lemma rep_complete {A : Type} g p lo (a b : str) (k : str -> option A) :
  forallb p a = true -> (lo <= List.length a)%nat -> k b <> None ->
  rep g p lo None (a ++ b) k <> None.
Proof.
  revert lo. induction a as [|c a IH]; intros lo Ha Hlo Hk.
  - simpl in Hlo. assert (lo = 0%nat) by lia. subst lo.
    now apply rep_zero_complete.
  - cbn [forallb] in Ha. apply andb_true_iff in Ha as [Hc Ha].
    assert (Hmore : rep g p (Nat.pred lo) None (a ++ b) k <> None).
    { apply IH; auto. simpl in Hlo. lia. }
    change ((c :: a) ++ b) with (c :: (a ++ b)).
    destruct lo as [|lo].
    + change (rep g p 0 None (c :: a ++ b) k) with
        (if g
         then or_else (if p c && true then rep g p 0 None (a ++ b) k else None)
                      (k (c :: a ++ b))
         else or_else (k (c :: a ++ b))
                      (if p c && true then rep g p 0 None (a ++ b) k else None)).
      rewrite Hc. cbn [andb]. cbn [Nat.pred] in Hmore. unfold or_else.
      destruct g; destruct (k (c :: a ++ b));
        destruct (rep _ p 0 None (a ++ b) k); congruence.
    + change (rep g p (S lo) None (c :: a ++ b) k) with
        (if p c && true then rep g p lo None (a ++ b) k else None).
      rewrite Hc. exact Hmore.
Qed.

(** The greedy repetition takes the longest run after which the rest of
    the pattern matches. *)
Lemma rep_greedy_last {A : Type} p lo (s : str) (k : str -> option A) x :
  rep true p lo None s k = Some x ->
  exists a b, s = a ++ b /\ forallb p a = true /\ (lo <= List.length a)%nat /\
              k b = Some x /\
              forall a1 b1, s = a1 ++ b1 -> forallb p a1 = true ->
                            (List.length a < List.length a1)%nat ->
                            k b1 = None.
Proof.
  revert lo. induction s as [|c s IH]; intros lo H.
  - destruct lo; simpl in H; [|discriminate].
    exists [], []. repeat split; auto.
    intros a1 b1 E _ Hl. symmetry in E. apply app_eq_nil in E as [-> _].
    simpl in Hl. lia.
  - assert (Hlonger : forall a : str,
              (forall a1 b1, s = a1 ++ b1 -> forallb p a1 = true ->
                             (List.length a < List.length a1)%nat -> k b1 = None) ->
              forall a1 b1, c :: s = a1 ++ b1 -> forallb p a1 = true ->
                            (List.length (c :: a) < List.length a1)%nat ->
                            k b1 = None).
    { intros a Hlast a1 b1 E Ha1 Hl.
      destruct a1 as [|c1 a1]; [simpl in Hl; lia|].
      injection E as _ E. cbn [forallb] in Ha1.
      apply andb_true_iff in Ha1 as [_ Ha1].
      apply (Hlast a1 b1); auto. simpl in Hl. lia. }
    destruct lo as [|lo].
    + change (rep true p 0 None (c :: s) k) with
        (or_else (if p c && true then rep true p 0 None s k else None)
                 (k (c :: s))) in H.
      destruct (p c) eqn:Hc; cbn [andb] in H.
      * destruct (rep true p 0 None s k) as [y|] eqn:E.
        -- cbn [or_else] in H. injection H as ->.
           apply IH in E as (a & b & -> & Ha & Hlen & Hk & Hlast).
           exists (c :: a), b. cbn [forallb]. rewrite Hc, Ha.
           repeat split; auto; try lia.
           intros a1 b1 E1 Ha1 Hl.
           exact (Hlonger a Hlast a1 b1 E1 Ha1 Hl).
        -- cbn [or_else] in H. exists [], (c :: s). repeat split; auto.
           intros a1 b1 E1 Ha1 Hl.
           destruct a1 as [|c1 a1]; [simpl in Hl; lia|].
           injection E1 as _ E1. cbn [forallb] in Ha1.
           apply andb_true_iff in Ha1 as [_ Ha1].
           destruct (k b1) eqn:Ek; [|reflexivity].
           exfalso. rewrite E1 in E.
           apply (@rep_complete A true p 0%nat a1 b1 k); auto; try lia.
           congruence.
      * cbn [or_else] in H. exists [], (c :: s). repeat split; auto.
        intros a1 b1 E1 Ha1 Hl.
        destruct a1 as [|c1 a1]; [simpl in Hl; lia|].
        injection E1 as <- _. cbn [forallb] in Ha1. rewrite Hc in Ha1.
        discriminate.
    + change (rep true p (S lo) None (c :: s) k) with
        (if p c && true then rep true p lo None s k else None) in H.
      destruct (p c) eqn:Hc; cbn [andb] in H; [|discriminate].
      apply IH in H as (a & b & -> & Ha & Hlen & Hk & Hlast).
      exists (c :: a), b. cbn [forallb]. rewrite Hc, Ha.
      repeat split; auto; try (simpl; lia).
      intros a1 b1 E1 Ha1 Hl.
      exact (Hlonger a Hlast a1 b1 E1 Ha1 Hl).
Qed.

Lemma match_at_none (r : regex) (s : str) :
  match_at r s = None -> run r s [] accept = None.
Proof.
  unfold match_at. destruct (run r s [] accept) as [x|] eqn:E; [|reflexivity].
  destruct (run_result _ _ _ _ E) as (s1 & c1 & Hx). injection Hx as <-.
  discriminate.
Qed.

(** The search takes the leftmost place where the pattern matches. *)
Lemma search_first (r : regex) (s : str) (caps : captures) :
  search r s = Some caps ->
  exists pre s' rest,
    s = pre ++ s' /\
    run r s' [] accept = Some ((0%nat, rest) :: caps) /\
    forall pre1 s1, s = pre1 ++ s1 ->
                    (List.length pre1 < List.length pre)%nat ->
                    run r s1 [] accept = None.
Proof.
  assert (Hat : forall s0 caps0 rest0,
             match_at r s0 = Some (caps0, rest0) ->
             run r s0 [] accept = Some ((0%nat, rest0) :: caps0)).
  { intros s0 caps0 rest0 H. unfold match_at in H.
    destruct (run r s0 [] accept) as [x|] eqn:E; [|discriminate].
    destruct (run_result _ _ _ _ E) as (s1 & c1 & Hx). injection Hx as <-.
    now injection H as -> ->. }
  induction s as [|c s IH]; intros H; simpl in H.
  - destruct (match_at r []) as [[caps0 rest0]|] eqn:E; [|discriminate].
    injection H as ->. exists [], [], rest0. repeat split; auto.
    intros pre1 s1 _ Hl. simpl in Hl. lia.
  - destruct (match_at r (c :: s)) as [[caps0 rest0]|] eqn:E.
    + injection H as ->. exists [], (c :: s), rest0. repeat split; auto.
      intros pre1 s1 _ Hl. simpl in Hl. lia.
    + apply IH in H as (pre & s' & rest & -> & H & Hleft).
      exists (c :: pre), s', rest. repeat split; auto.
      intros pre1 s1 E1 Hl. destruct pre1 as [|c1 pre1].
      * simpl in E1. subst s1. now apply match_at_none.
      * injection E1 as _ E1. apply (Hleft pre1 s1 E1). simpl in Hl. lia.
Qed.

(** Where the search finds nothing the pattern matches at no place. *)
Lemma search_none (r : regex) (s : str) :
  search r s = None ->
  forall pre s1, s = pre ++ s1 -> run r s1 [] accept = None.
Proof.
  induction s as [|c s IH]; intros H pre s1 E; simpl in H.
  - destruct (match_at r []) as [[caps0 rest0]|] eqn:Em; [discriminate|].
    symmetry in E. apply app_eq_nil in E as [_ ->]. now apply match_at_none.
  - destruct (match_at r (c :: s)) as [[caps0 rest0]|] eqn:Em; [discriminate|].
    destruct pre as [|c1 pre].
    + simpl in E. subst s1. now apply match_at_none.
    + injection E as _ E. now apply (IH H pre s1).
Qed.

Lemma skipn_word (w s : str) : skipn (List.length w) (w ++ s) = s.
Proof. induction w as [|c w IH]; simpl; auto. Qed.

Lemma app_same_length {A : Type} (a b c d : list A) :
  a ++ b = c ++ d -> List.length a = List.length c -> a = c /\ b = d.
Proof.
  revert c. induction a as [|x a IH]; intros [|y c] E Hl; simpl in *;
    try discriminate; auto.
  injection E as -> E. injection Hl as Hl.
  destruct (IH c E Hl) as [-> ->]. auto.
Qed.

Lemma app_shorter {A : Type} (a b c d : list A) :
  a ++ b = c ++ d -> (List.length a < List.length c)%nat ->
  exists e, e <> [] /\ c = a ++ e /\ b = e ++ d.
Proof.
  revert c. induction a as [|x a IH]; intros c E Hl.
  - simpl in E. subst b. exists c. repeat split; auto.
    destruct c; [simpl in Hl; lia|discriminate].
  - destruct c as [|y c]; [simpl in Hl; lia|].
    injection E as -> E. simpl in Hl.
    destruct (IH c E ltac:(lia)) as (e & He & -> & ->).
    exists e. auto.
Qed.

Lemma firstn_taken (g post : str) :
  firstn (List.length (g ++ post) - List.length post) (g ++ post) = g.
Proof.
  rewrite length_app, Nat.add_sub, firstn_app, Nat.sub_diag, firstn_all.
  simpl. apply app_nil_r.
Qed.

Lemma group_tail_complete (cls : N -> bool) (tail : regex)
    (follows : str -> bool) :
  (forall s caps, follows s = true ->
     exists rest, run tail s caps accept = Some ((0%nat, rest) :: caps)) ->
  forall g post caps,
    g <> [] -> forallb cls g = true -> follows post = true ->
    run (Cat (Grp 1 (lazy_plus cls)) tail) (g ++ post) caps accept <> None.
Proof.
  intros Hyes g post caps Hg Hcls Hf.
  rewrite run_cat, run_grp. unfold lazy_plus. rewrite run_rep.
  apply rep_complete; auto.
  - destruct g; [congruence|simpl; lia].
  - cbv beta.
    match goal with
    | |- run tail post ?c accept <> None =>
        destruct (Hyes post c Hf) as [rest Hrest]
    end.
    intros Habs. pose proof (eq_trans (eq_sym Hrest) Habs) as D.
    discriminate D.
Qed.

(** Where the pattern can be matched at the start of a text the matcher
    finds a match there. *)
Lemma word_match_complete (w : str) (cls : N -> bool) (tail : regex)
    (follows : str -> bool) :
  w <> [] ->
  (forall s caps, follows s = true ->
     exists rest, run tail s caps accept = Some ((0%nat, rest) :: caps)) ->
  forall s ws g post,
    word_match w cls follows s ws g post ->
    run (seq [lit w; plus is_space; Grp 1 (lazy_plus cls); tail]) s [] accept
      <> None.
Proof.
  intros Hw Hyes s ws g post (-> & Hws & Hsp & Hg & Hcls & Hf).
  change (seq [lit w; plus is_space; Grp 1 (lazy_plus cls); tail])
    with (Cat (lit w) (Cat (plus is_space) (Cat (Grp 1 (lazy_plus cls)) tail))).
  rewrite run_cat, run_lit by exact Hw.
  rewrite starts_with_refl, skipn_word.
  rewrite run_cat. unfold plus. rewrite run_rep.
  apply rep_complete; auto.
  - destruct ws; [congruence|simpl; lia].
  - cbv beta. now apply (@group_tail_complete cls tail follows Hyes).
Qed.

(** The group the search takes is the group of the first match. *)
Lemma word_group_first (w : str) (cls : N -> bool) (tail : regex)
    (follows : str -> bool) :
  w <> [] ->
  (forall s caps, follows s = true ->
     exists rest, run tail s caps accept = Some ((0%nat, rest) :: caps)) ->
  (forall s caps, follows s = false -> run tail s caps accept = None) ->
  forall text caps,
    search (seq [lit w; plus is_space; Grp 1 (lazy_plus cls); tail]) text
      = Some caps ->
    first_word_match w cls follows text (group 1 caps).
Proof.
  intros Hw Hyes Hno text caps H.
  apply search_first in H as (pre & s0 & rest & -> & H & Hleft).
  change (seq [lit w; plus is_space; Grp 1 (lazy_plus cls); tail])
    with (Cat (lit w) (Cat (plus is_space) (Cat (Grp 1 (lazy_plus cls)) tail)))
    in H.
  rewrite run_cat, run_lit in H by exact Hw.
  destruct (starts_with w s0) eqn:Ew; [|discriminate].
  apply starts_with_app in Ew. set (s1 := skipn (List.length w) s0) in *.
  rewrite run_cat in H. unfold plus in H. rewrite run_rep in H.
  apply rep_greedy_last in H as (ws & s2 & E1 & Hws & Hlen & H & Hlong).
  cbv beta in H, Hlong.
  pose proof H as Hgroup.
  rewrite run_cat, run_grp in Hgroup. unfold lazy_plus in Hgroup.
  rewrite run_rep in Hgroup.
  apply rep_lazy_first in Hgroup as (g & post & E2 & Hg & Hglen & Hk & Hmin).
  subst s2. cbv beta in Hk, Hmin.
  rewrite firstn_taken in Hk.
  destruct (follows post) eqn:Ef;
    [|pose proof (eq_trans (eq_sym (Hno post [(1%nat, g)] Ef)) Hk) as Habs;
      discriminate Habs].
  destruct (Hyes post [(1%nat, g)] Ef) as [rest' Hrest'].
  pose proof (eq_trans (eq_sym Hrest') Hk) as Hcaps. injection Hcaps as _ <-.
  change (group 1 [(1%nat, g)]) with g.
  assert (Hwsne : ws <> []) by (destruct ws; [simpl in Hlen; lia|congruence]).
  assert (Hgne : g <> []) by (destruct g; [simpl in Hglen; lia|congruence]).
  assert (Hm : word_match w cls follows (w ++ ws ++ g ++ post) ws g post)
    by (repeat split; auto).
  exists pre, ws, post. rewrite Ew, E1.
  split; [reflexivity|]. split; [exact Hm|]. split; [|split].
  - intros pre1 t1 ws1 g1 post1 Et Hl Hm1.
    pose proof (@word_match_complete w cls tail follows Hw Hyes _ _ _ _ Hm1) as Hrun.
    apply Hrun. apply (Hleft pre1 t1); auto. now rewrite Ew, E1.
  - intros ws1 g1 post1 (Es & Hws1 & Hsp1 & Hg1 & Hcls1 & Hf1).
    apply app_inv_head in Es.
    destruct (Nat.le_gt_cases (List.length ws1) (List.length ws)) as [|Hgt];
      [assumption|exfalso].
    assert (Hnone : run (Cat (Grp 1 (lazy_plus cls)) tail) (g1 ++ post1) []
                        accept = None).
    { apply (Hlong ws1 (g1 ++ post1)); auto. now rewrite E1. }
    revert Hnone. now apply (@group_tail_complete cls tail follows Hyes).
  - intros g1 post1 (Es & _ & _ & Hg1 & Hcls1 & Hf1).
    apply app_inv_head in Es. apply app_inv_head in Es.
    destruct (Nat.le_gt_cases (List.length g) (List.length g1)) as [|Hgt];
      [assumption|exfalso].
    symmetry in Es.
    destruct (app_shorter _ _ _ _ Es Hgt) as (g2 & Hg2 & Eg & Epost).
    assert (Hl1 : (1 <= List.length g1)%nat)
      by (destruct g1; [congruence|simpl; lia]).
    specialize (Hmin g1 g2 Eg Hl1 Hg2).
    rewrite Epost in Hf1.
    match type of Hmin with
    | run _ _ ?c _ = _ => destruct (Hyes (g2 ++ post) c Hf1) as [r Hr]
    end.
    pose proof (eq_trans (eq_sym Hr) Hmin) as Habs. discriminate Habs.
Qed.

(** Where the search finds nothing the pattern can be matched nowhere. *)
Lemma word_group_none (w : str) (cls : N -> bool) (tail : regex)
    (follows : str -> bool) :
  w <> [] ->
  (forall s caps, follows s = true ->
     exists rest, run tail s caps accept = Some ((0%nat, rest) :: caps)) ->
  forall text,
    search (seq [lit w; plus is_space; Grp 1 (lazy_plus cls); tail]) text = None ->
    no_word_match w cls follows text.
Proof.
  intros Hw Hyes text H pre s ws g post E Hm.
  apply (@word_match_complete w cls tail follows Hw Hyes _ _ _ _ Hm).
  now apply (@search_none _ _ H pre s).
Qed.

(** The first match is one match: its group is fixed by the text. *)
Lemma first_word_match_unique (w : str) (cls : N -> bool)
    (follows : str -> bool) (text g g' : str) :
  first_word_match w cls follows text g ->
  first_word_match w cls follows text g' ->
  g = g'.
Proof.
  intros (pre & ws & post & E & Hm & Hleft & Hlong & Hshort)
         (pre' & ws' & post' & E' & Hm' & Hleft' & Hlong' & Hshort').
  assert (Hpre : List.length pre = List.length pre').
  { destruct (Nat.lt_trichotomy (List.length pre) (List.length pre'))
      as [Hl|[Hl|Hl]]; auto; exfalso.
    - exact (Hleft' pre _ ws g post E Hl Hm).
    - exact (Hleft pre' _ ws' g' post' E' Hl Hm'). }
  rewrite E' in E. symmetry in E.
  destruct (app_same_length _ _ _ _ E Hpre) as [_ Es].
  rewrite <- Es in Hm'.
  pose proof (Hlong ws' g' post' Hm') as L1.
  rewrite Es in Hm. pose proof (Hlong' ws g post Hm) as L2.
  rewrite <- Es in Hm.
  apply app_inv_head in Es.
  destruct (app_same_length _ _ _ _ Es ltac:(lia)) as [Ews Eg].
  subst ws'.
  pose proof (Hshort g' post' Hm') as S1.
  assert (Hm2 : word_match w cls follows (w ++ ws ++ g' ++ post') ws g post)
    by (now rewrite <- Eg).
  pose proof (Hshort' g post Hm2) as S2.
  now destruct (app_same_length _ _ _ _ Eg ltac:(lia)).
Qed.

(** The first match of the recipient pattern. *)
Lemma recipient_first_match (text : str) (rm : captures) :
  search recipient_re text = Some rm ->
  first_word_match (py "to") any_char marker_follows text (group 1 rm).
Proof.
  apply word_group_first.
  - discriminate.
  - intros s caps. apply marker_accept.
  - intros s caps. apply marker_accept.
Qed.

(** The first match of the method pattern, and where there is none. *)
Lemma method_first_match (text : str) :
  match search method_re text with
  | Some mm =>
      first_word_match (py "using") method_char mask_or_end_follows text
                       (group 1 mm)
  | None => no_word_match (py "using") method_char mask_or_end_follows text
  end.
Proof.
  destruct (search method_re text) as [mm|] eqn:E.
  - revert E. apply word_group_first.
    + discriminate.
    + intros s caps. apply method_end_accept.
    + intros s caps. apply method_end_accept.
  - revert E. apply word_group_none.
    + discriminate.
    + intros s caps. apply method_end_accept.
Qed.

Lemma recipient_between_unique (text r r' : str) :
  recipient_between text r -> recipient_between text r' -> r = r'.
Proof.
  intros (g & Hg & ->) (g' & Hg' & ->).
  now rewrite (first_word_match_unique Hg Hg').
Qed.

Lemma method_after_using_unique (text m m' : str) :
  method_after_using text m -> method_after_using text m' -> m = m'.
Proof.
  intros [(g & Hg & ->)|(Hn & ->)] [(g' & Hg' & ->)|(Hn' & ->)].
  - now rewrite (first_word_match_unique Hg Hg').
  - exfalso. destruct Hg as (pre & ws & post & E & Hm & _).
    exact (Hn' pre _ ws g post E Hm).
  - exfalso. destruct Hg' as (pre & ws & post & E & Hm & _).
    exact (Hn pre _ ws g' post E Hm).
  - reflexivity.
Qed.

(** C7, as the code has it.  The recipient of a record is the text [g],
    stripped, of the first match in the sentence of: the letters ["to"],
    whitespace, the characters [g], none of them a line feed, and whitespace
    with the letters ["using"] or ["on"] after it.  The first match is the
    one at the leftmost place where all of this can be found, there with the
    longest whitespace after ["to"], and then with the shortest [g]; so [g]
    ends at the nearest place where whitespace and ["using"] or ["on"]
    follow.  The three markers are found as runs of letters, wherever they
    stand: a marker need not be a word of its own.  The sentence has one
    such text, the recipient. *)
Theorem C7_recipient_between_letter_runs
    (i : nat) (b : block) (t : transaction) :
  process_block i b = Ok (Some t) ->
  exists nodes,
    main_text b = Some nodes /\
    recipient_between (get_text nodes) (recipient t) /\
    forall r, recipient_between (get_text nodes) r -> r = recipient t.
Proof.
  intros H. apply process_block_some in H
    as (nodes & am & rm & dm & a & dt & Hn & _ & Hr & _ & _ & _ & ->).
  apply recipient_first_match in Hr.
  assert (Hb : recipient_between (get_text nodes) (strip (group 1 rm)))
    by (exists (group 1 rm); auto).
  exists nodes. split; [exact Hn|]. split; [exact Hb|].
  intros r Hr'. exact (recipient_between_unique Hr' Hb).
Qed.

Lemma C7_recipient_witness :
  process_block 0 (sentence sample_1) = Ok (Some swiggy) /\
  exists nodes,
    main_text (sentence sample_1) = Some nodes /\
    recipient_between (get_text nodes) (recipient swiggy) /\
    forall r, recipient_between (get_text nodes) r -> r = recipient swiggy.
Proof.
  assert (H : process_block 0 (sentence sample_1) = Ok (Some swiggy))
    by (vm_compute; reflexivity).
  split; [exact H|].
  exact (C7_recipient_between_letter_runs 0 (sentence sample_1) H).
Defined.

(** C7, as stated, fails: in ["... to Pizza online using UPI ..."] the text
    between the word ["to"] and the next word ["using"] is ["Pizza online"],
    and the record's recipient is ["Pizza"], cut at the letters ["on"] of
    ["online"]. *)
Lemma C7_marker_inside_a_name :
  spec_recipient pizza_sample = Some (py "Pizza online") /\
  map recipient (parse_html_content [sentence pizza_sample]) = [py "Pizza"].
Proof. split; vm_compute; reflexivity. Qed.

(** C8, as the code has it.  Where the method pattern can be matched
    nowhere in the sentence the payment method of a record is ["UPI"].
    Where it can, the payment method is the text [g], stripped, of the first
    match of: the letters ["using"], whitespace, the characters [g] of the
    class [[A-Za-z0-9 \-&()/.]], and after them whitespace and a letter [X]
    or [x], or nothing but whitespace up to the end of the text.  The first
    match is the one at the leftmost place where all of this can be found,
    not always the first ["using"] of the sentence; there it has the longest
    whitespace after ["using"], and then the shortest [g].  So [g] stops
    before the first masked-account run that comes after its first
    character; a run of [X] that stands right after the marker is part of
    [g].  The sentence has one such text, the payment method. *)
Theorem C8_payment_method (i : nat) (b : block) (t : transaction) :
  process_block i b = Ok (Some t) ->
  exists nodes,
    main_text b = Some nodes /\
    method_after_using (get_text nodes) (payment_method t) /\
    forall m, method_after_using (get_text nodes) m -> m = payment_method t.
Proof.
  intros H. apply process_block_some in H
    as (nodes & am & rm & dm & a & dt & Hn & _ & _ & _ & _ & _ & ->).
  exists nodes. split; [exact Hn|]. simpl payment_method.
  assert (Hm : method_after_using (get_text nodes) (method_of (get_text nodes))).
  { unfold method_after_using, method_of.
    pose proof (method_first_match (get_text nodes)) as Hf.
    destruct (search method_re (get_text nodes)) as [mm|]; [left|right]; eauto. }
  split; [exact Hm|].
  intros m Hm'. exact (method_after_using_unique Hm' Hm).
Qed.

Lemma C8_payment_method_witness :
  process_block 0 (sentence sample_1) = Ok (Some swiggy) /\
  exists nodes,
    main_text (sentence sample_1) = Some nodes /\
    method_after_using (get_text nodes) (payment_method swiggy) /\
    forall m, method_after_using (get_text nodes) m -> m = payment_method swiggy.
Proof.
  assert (H : process_block 0 (sentence sample_1) = Ok (Some swiggy))
    by (vm_compute; reflexivity).
  split; [exact H|].
  exact (C8_payment_method 0 (sentence sample_1) H).
Defined.

(** C8, as stated, fails: in ["... using XXXX1234 on 1 Jan 2024"] the masked
    account follows the marker and whitespace, and it is not left out of the
    payment method: the method is ["XXXX1234 on 1 Jan 2024"]. *)
Lemma C8_mask_right_after_the_marker :
  masked_sample =
    py "You paid " ++ [rupee] ++ py "5 to A using"
    ++ py " XXXX1234" ++ py " on 1 Jan 2024" /\
  map payment_method (parse_html_content [sentence masked_sample])
    = [py "XXXX1234 on 1 Jan 2024"].
Proof. split; vm_compute; reflexivity. Qed.

(** The first match need not stand at the first marker: a ["to"] with no
    marker after it on its line is passed over, and so is a ["using"] with
    a comma after its word. *)
Lemma first_match_after_the_first_marker :
  map recipient (parse_html_content [sentence later_to_sample]) = [py "C"] /\
  map payment_method (parse_html_content [sentence second_using_sample])
    = [py "UPI on 1 Jan 2024"].
Proof. split; vm_compute; reflexivity. Qed.

(** C3.  The three sample sentences give the three records, with the
    amounts, dates and recipients of the claim, and the [analysis] the tool
    builds of them holds the total 435.5, the mean 871/6 = 145.1666..., the
    count 3 and the date range.  But the tool does not report it: the counts
    under [top_merchants] were taken with [dict(...)] and are [numpy.int64],
    [json.dumps] raises [TypeError] on them, and the tool returns its
    ["Error analyzing data: ..."] text.  The [/quick-insights] endpoint, which
    takes its counts with [to_dict()], gives the same figures in a dict that
    can be written. *)
Theorem C3_sample_document :
  let records := [swiggy; zomato; amazon] in
  parse_html_content (map sentence [sample_1; sample_2; sample_3]) = records /\
  field "total_spend" (build_analysis records) = Some (PyFloat (871 # 2)) /\
  field "average_transaction" (build_analysis records)
    = Some (PyFloat (871 # 6)) /\
  field "transaction_count" (build_analysis records) = Some (PyInt 3) /\
  field "date_range" (build_analysis records)
    = Some (PyDict [("start"%string, PyStr (py "2024-11-13"));
                    ("end"%string, PyStr (py "2024-11-15"))]) /\
  field "top_merchants" (build_analysis records)
    = Some (PyDict [("Swiggy"%string, NpInt64 1);
                    ("Zomato"%string, NpInt64 1);
                    ("Amazon"%string, NpInt64 1)]) /\
  analyze_transaction_data records = ErrorAnalyzing TypeError /\
  json_dumps (quick_insights records) = Ok (quick_insights records) /\
  field "total_spend" (quick_insights records) = Some (PyFloat (871 # 2)) /\
  field "average_transaction" (quick_insights records)
    = Some (PyFloat (871 # 6)) /\
  field "transaction_count" (quick_insights records) = Some (PyInt 3).
Proof. cbv zeta. repeat split; vm_compute; reflexivity. Qed.

(** The tool reports on no batch at all: whatever the records, the counts
    under [top_merchants] cannot be written. *)
Lemma analyze_transaction_data_never_reports
    (t : transaction) (data : list transaction) :
  analyze_transaction_data (t :: data) = ErrorAnalyzing TypeError.
Proof.
  unfold analyze_transaction_data, json_dumps.
  assert (H : serializable (build_analysis (t :: data)) = false);
    [|now rewrite H].
  unfold build_analysis.
  set (counts := value_counts (map recipient (t :: data))).
  assert (Hc : exists e rest, firstn 5 counts = e :: rest).
  { assert (Hne : counts <> []).
    { unfold counts, value_counts. simpl map.
      set (f := fun (acc : list (str * nat)) x => insert_count x acc).
      assert (Hf : forall l acc, acc <> [] -> fold_left f l acc <> []).
      { induction l as [|x l IH]; intros acc Hacc; simpl; auto.
        apply IH. unfold f. destruct acc as [|y acc]; [congruence|].
        simpl. destruct (Nat.leb (snd x) (snd y)); discriminate. }
      simpl fold_left. apply Hf. unfold f. simpl. discriminate. }
    destruct counts as [|e rest]; [congruence|]. simpl. eauto. }
  destruct Hc as (e & rest & Hc). rewrite Hc.
  reflexivity.
Qed.

(** ** Amounts, dates and stripped text *)

Lemma Qred_nonneg (q : Q) : (0 <= q)%Q -> (0 <= Qred q)%Q.
Proof.
  intros H. apply (Qle_trans _ q); [exact H|].
  apply Qle_lteq. right. symmetry. apply Qred_correct.
Qed.

Lemma Ok_inj {A : Type} (a b : A) : Ok a = Ok b -> a = b.
Proof. intros H. now injection H. Qed.

Lemma py_float_nonneg (s : str) (q : Q) : py_float s = Ok q -> (0 <= q)%Q.
Proof.
  unfold py_float. destruct (span is_ascii_digit s) as [ip rest].
  destruct rest as [|c fp].
  - destruct ip; [discriminate|]. intros H. apply Ok_inj in H. subst q.
    apply Qred_nonneg. unfold Qle. simpl. lia.
  - destruct ((c =? dot) && forallb is_ascii_digit fp
              && negb (Nat.eqb (List.length ip + List.length fp) 0));
      [|discriminate].
    intros H. apply Ok_inj in H. subst q.
    apply Qred_nonneg. unfold Qle. simpl. lia.
Qed.

Lemma make_datetime_valid (y m d : N) (t : datetime) :
  make_datetime y m d = Ok t ->
  t = {| year := y; month := m; day := d |} /\ valid_date y m d = true.
Proof.
  unfold make_datetime. destruct (valid_date y m d); [|discriminate].
  intros H. injection H as <-. auto.
Qed.

Lemma bind_ok {A B : Type} (m : result A) (k : A -> result B) (b : B) :
  bind m k = Ok b -> exists a, m = Ok a /\ k a = Ok b.
Proof. destruct m as [a|e]; simpl; [eauto|discriminate]. Qed.

(** A date [strptime] gives is a date of the calendar. *)
Lemma strptime_valid (data : str) (t : datetime) :
  strptime data = Ok t -> valid_date (year t) (month t) (day t) = true.
Proof.
  unfold strptime.
  destruct (match_at strptime_re data) as [[found [|c rest]]|];
    try discriminate.
  intros H.
  apply bind_ok in H as (d & _ & H).
  apply bind_ok in H as (m & _ & H).
  apply bind_ok in H as (y & _ & H).
  apply make_datetime_valid in H as [-> H]. exact H.
Qed.

Lemma four_digit_years :
  forallb (fun n => str_eqb (decimal (N.of_nat n))
                      [48 + N.of_nat n / 1000; 48 + (N.of_nat n / 100) mod 10;
                       48 + (N.of_nat n / 10) mod 10; 48 + N.of_nat n mod 10])
          (List.seq (N.to_nat 1000) (N.to_nat 9000)) = true.
Proof. vm_compute. reflexivity. Qed.

(** From the year 1000 on [strftime] writes the ISO form. *)
Lemma strftime_iso (y m d : N) :
  in_range 1000 9999 y = true ->
  strftime {| year := y; month := m; day := d |} = iso_date y m d.
Proof.
  intros Hy. unfold strftime, iso_date. simpl year. simpl month. simpl day.
  f_equal.
  apply andb_true_iff in Hy as [Hlo Hhi].
  apply N.leb_le in Hlo, Hhi.
  pose proof four_digit_years as H. rewrite forallb_forall in H.
  specialize (H (N.to_nat y)). rewrite N2Nat.id in H.
  apply str_eqb_eq in H.
  - rewrite H. reflexivity.
  - apply in_seq. lia.
Qed.

Lemma lstrip_head (s : str) : starts_blank (lstrip s) = false.
Proof.
  induction s as [|c s IH]; [reflexivity|].
  cbn [lstrip]. destruct (is_space c) eqn:E; [exact IH|exact E].
Qed.

Lemma lstrip_suffix (s : str) : exists q, s = q ++ lstrip s.
Proof.
  induction s as [|c s [q IH]]; simpl.
  - now exists [].
  - destruct (is_space c).
    + exists (c :: q). simpl. now f_equal.
    + now exists [].
Qed.

Lemma rstrip_prefix (s : str) : exists q, s = rstrip s ++ q.
Proof.
  unfold rstrip. destruct (lstrip_suffix (rev s)) as [q Hq].
  exists (rev q). rewrite <- rev_app_distr, <- Hq. now rewrite rev_involutive.
Qed.

(** What [strip] gives has no whitespace at either end. *)
Lemma strip_is_stripped (s : str) : is_stripped (strip s) = true.
Proof.
  unfold is_stripped, strip. apply andb_true_iff. split.
  - destruct (rstrip_prefix (lstrip s)) as [q Hq].
    pose proof (lstrip_head s) as Hh.
    destruct (rstrip (lstrip s)) as [|c r]; [reflexivity|].
    rewrite Hq in Hh. simpl in Hh |- *. now rewrite Hh.
  - unfold rstrip. rewrite rev_involutive. now rewrite lstrip_head.
Qed.

Lemma digit_is_no_comma (c : N) : is_ascii_digit c = true -> (c =? comma) = false.
Proof.
  intros H. destruct (c =? comma) eqn:E; [|reflexivity].
  apply N.eqb_eq in E. subst c. discriminate.
Qed.

Lemma remove_commas_digits (a : str) :
  forallb digit_or_comma a = true ->
  forallb is_ascii_digit (remove_commas a) = true /\
  (existsb is_ascii_digit a = true <-> remove_commas a <> []).
Proof.
  unfold remove_commas. induction a as [|c a IH]; simpl.
  - intros _. split; auto. split; [discriminate|congruence].
  - intros H. apply andb_true_iff in H as [Hc Ha].
    destruct (IH Ha) as [IH1 IH2]. unfold digit_or_comma in Hc.
    destruct (is_ascii_digit c) eqn:Ed.
    + rewrite (digit_is_no_comma _ Ed). simpl. rewrite Ed, IH1.
      split; auto. split; [discriminate|reflexivity].
    + simpl in Hc. rewrite Hc. simpl. split; auto.
Qed.

Lemma span_digits_then (a f : str) :
  forallb is_ascii_digit a = true ->
  match f with c :: _ => is_ascii_digit c = false | [] => True end ->
  span is_ascii_digit (a ++ f) = (a, f).
Proof.
  intros Ha Hf. induction a as [|c a IH]; simpl.
  - destruct f as [|c f]; auto. simpl. now rewrite Hf.
  - simpl in Ha. apply andb_true_iff in Ha as [Hc Ha].
    now rewrite Hc, (IH Ha).
Qed.

Lemma py_float_whole (a : str) :
  forallb is_ascii_digit a = true -> a <> [] -> exists q, py_float a = Ok q.
Proof.
  intros Ha Hne. unfold py_float.
  pose proof (span_digits_then a [] Ha I) as E. rewrite app_nil_r in E.
  rewrite E.
  destruct a; [congruence|eauto].
Qed.

Lemma py_float_fraction (a ds : str) :
  forallb is_ascii_digit a = true -> forallb is_ascii_digit ds = true ->
  ds <> [] -> exists q, py_float (a ++ dot :: ds) = Ok q.
Proof.
  intros Ha Hds Hne. unfold py_float.
  rewrite (span_digits_then a (dot :: ds) Ha eq_refl).
  rewrite N.eqb_refl, Hds.
  replace (Nat.eqb (List.length a + List.length ds) 0) with false; [cbn; eauto|].
  destruct ds; [congruence|]. rewrite Nat.add_comm. reflexivity.
Qed.

Lemma keep_digits (ds : str) :
  forallb is_ascii_digit ds = true ->
  filter (fun c => negb (c =? comma)) ds = ds.
Proof.
  induction ds as [|c ds IH]; [reflexivity|].
  cbn [forallb filter]. intros H. apply andb_true_iff in H as [Hc Hds].
  rewrite (digit_is_no_comma _ Hc). cbn [negb]. now rewrite (IH Hds).
Qed.

(** [float] reads an amount token when, and only when, it holds a digit. *)
Lemma py_float_token (a f : str) :
  forallb digit_or_comma a = true ->
  (f = [] \/ exists ds, f = dot :: ds /\ ds <> [] /\
                        forallb is_ascii_digit ds = true) ->
  (exists q, py_float (remove_commas (a ++ f)) = Ok q) <->
  existsb is_ascii_digit (a ++ f) = true.
Proof.
  intros Ha Hf. destruct (remove_commas_digits a Ha) as [Hd Hex].
  unfold remove_commas in *. rewrite filter_app, existsb_app.
  set (a' := filter (fun c => negb (c =? comma)) a) in *.
  destruct Hf as [->|(ds & -> & Hds & Hdig)].
  - cbn [filter existsb]. rewrite app_nil_r, orb_false_r, Hex. split.
    + intros [q Hq] ->. discriminate.
    + apply py_float_whole, Hd.
  - change (filter (fun c => negb (c =? comma)) (dot :: ds))
      with (dot :: filter (fun c => negb (c =? comma)) ds).
    rewrite (keep_digits ds Hdig). split.
    + intros _. apply orb_true_iff. right.
      destruct ds as [|c ds]; [congruence|].
      cbn [forallb] in Hdig. apply andb_true_iff in Hdig as [Hc _].
      cbn [existsb]. rewrite Hc. apply orb_true_r.
    + intros _. now apply py_float_fraction.
Qed.


(** The amount token the pattern takes: digits and commas, and then perhaps
    a dot with digits after it. *)
Lemma amount_match (text : str) (am : captures) :
  search amount_re text = Some am ->
  exists a f,
    group 1 am = a ++ f /\ a <> [] /\ forallb digit_or_comma a = true /\
    (f = [] \/ exists ds, f = dot :: ds /\ ds <> [] /\
                          forallb is_ascii_digit ds = true).
Proof.
  intros H. apply search_sound in H as (pre & s0 & rest & _ & H).
  change amount_re with
    (Cat (Chr rupee)
       (Cat (star is_space)
          (Grp 1 (Cat (plus digit_or_comma)
                      (Opt (Cat (Chr dot) (plus is_ascii_digit))))))) in H.
  rewrite run_cat in H. cbn [run] in H.
  destruct s0 as [|x s1]; [discriminate|].
  destruct (x =? rupee); [|discriminate].
  apply rep_sound in H as (ws & s2 & _ & _ & _ & H).
  apply rep_sound in H as (a & s3 & -> & Ha & Hlen & H).
  assert (Hne : a <> []) by (destruct a; [simpl in Hlen; lia|congruence]).
  unfold or_else in H.
  destruct s3 as [|y s4].
  - injection H as _ <-. rewrite firstn_taken.
    exists a, []. cbn [group Nat.eqb]. rewrite app_nil_r. auto.
  - destruct (y =? dot) eqn:Ey.
    + apply N.eqb_eq in Ey. subst y.
      match type of H with
      | match ?m with Some _ => _ | None => _ end = _ =>
          destruct m as [found|] eqn:E
      end.
      * injection H as ->.
        apply rep_sound in E as (ds & s5 & -> & Hds & Hdl & E).
        injection E as _ <-.
        replace (a ++ dot :: ds ++ s5) with ((a ++ dot :: ds) ++ s5)
          by now rewrite <- app_assoc.
        rewrite firstn_taken. cbn [group Nat.eqb].
        exists a, (dot :: ds). repeat split; auto. right. exists ds.
        repeat split; auto. destruct ds; [simpl in Hdl; lia|congruence].
      * injection H as _ <-. rewrite firstn_taken.
        exists a, []. cbn [group Nat.eqb]. rewrite app_nil_r. auto.
    + injection H as _ <-. rewrite firstn_taken.
      exists a, []. cbn [group Nat.eqb]. rewrite app_nil_r. auto.
Qed.

(** Where the three patterns are found, the amount is read when, and only
    when, its token holds a digit. *)
Lemma amount_read (text : str) (am : captures) :
  search amount_re text = Some am ->
  (exists q, py_float (remove_commas (group 1 am)) = Ok q) <->
  existsb is_ascii_digit (group 1 am) = true.
Proof.
  intros H. apply amount_match in H as (a & f & -> & _ & Ha & Hf).
  now apply py_float_token.
Qed.

(** ** The records of the extractor *)

(** [C1], as the code has it: every record [parse_html_content] returns has
    an amount that is not negative (it is zero for a token of zeros), a date
    that [strftime] wrote from a date of the calendar (the fixed-width ISO
    form for the years 1000 to 9999) and a recipient without whitespace at
    either end, which may be empty; the amount is what [float] read from the
    token of one block, commas removed, never a value put in its place. *)
Theorem C1_extracted_records (blocks : list block) (t : transaction) :
  In t (parse_html_content blocks) ->
  (0 <= amount t)%Q /\
  (exists dt,
     valid_date (year dt) (month dt) (day dt) = true /\
     date t = strftime dt /\
     (in_range 1000 9999 (year dt) = true ->
      date t = iso_date (year dt) (month dt) (day dt))) /\
  is_stripped (recipient t) = true /\
  (exists k nodes am,
     nth_error blocks k = Some {| main_text := Some nodes |} /\
     search amount_re (get_text nodes) = Some am /\
     py_float (remove_commas (group 1 am)) = Ok (amount t)).
Proof.
  unfold parse_html_content. intros H.
  apply extract_loop_in in H as (k & b & Hk & H).
  apply process_block_some in H
    as (nodes & am & rm & dm & a & dt & Hn & Ham & Hrm & Hdm & Ha & Hdt & ->).
  cbn [amount recipient date].
  split; [exact (py_float_nonneg _ Ha)|].
  split.
  - exists dt. split; [exact (strptime_valid _ Hdt)|]. split; [reflexivity|].
    destruct dt as [y m d]. apply strftime_iso.
  - split; [apply strip_is_stripped|].
    exists k, nodes, am. destruct b as [mt]. simpl in Hn. subst mt. auto.
Qed.

Lemma C1_extracted_records_witness :
  In swiggy (parse_html_content [sentence sample_1]) /\
  (0 <= amount swiggy)%Q /\ is_stripped (recipient swiggy) = true.
Proof.
  assert (H : In swiggy (parse_html_content [sentence sample_1]))
    by (vm_compute; left; reflexivity).
  split; [exact H|].
  destruct (@C1_extracted_records [sentence sample_1] swiggy H)
    as (Ha & _ & Hr & _).
  split; [exact Ha|exact Hr].
Defined.

(** [C1] as the specification words it does not hold: the sentence
    [zero_sample] gives a record whose amount is zero and whose recipient is
    the empty string. *)
Lemma C1_zero_amount_and_empty_recipient :
  exists t,
    parse_html_content [sentence zero_sample] = [t] /\
    (amount t == 0)%Q /\ ~ (0 < amount t)%Q /\ recipient t = [] /\
    date t = py "2024-01-01".
Proof.
  eexists. split; [vm_compute; reflexivity|].
  cbn [amount recipient date]. repeat split.
  intros H. vm_compute in H. discriminate.
Qed.

(** [C2], as the code has it: the block at place [length pre] of a document
    adds at most one record, and the records of the blocks before it and
    after it are what they are without it; it adds a record when, and only
    when, it has a text element in which the amount, recipient and date
    patterns are found, the amount token holds a digit, and [strptime] makes
    a date of the day, month and year.  Whatever a block raises ends with
    that block: for a document that [BeautifulSoup] has parsed the call
    returns its list.  The call raises when, and only when, the parser gives
    the document up, in the two lines that stand before the loop. *)
Theorem C2_block_contributes (pre post : list block) (b : block) :
  parse_html_document (Blocks (pre ++ b :: post)) =
    Extracted (parse_html_content (pre ++ b :: post)) /\
  (forall html_content,
      parse_html_document html_content = Raised <-> html_content = Rejected) /\
  parse_html_content (pre ++ b :: post) =
    parse_html_content pre ++ emitted (List.length pre) b
      ++ extract_loop (S (List.length pre)) post [] /\
  (List.length (emitted (List.length pre) b) <= 1)%nat /\
  (emitted (List.length pre) b <> [] <->
   exists nodes am rm dm dt,
     main_text b = Some nodes /\
     search amount_re (get_text nodes) = Some am /\
     search recipient_re (get_text nodes) = Some rm /\
     search date_re (get_text nodes) = Some dm /\
     existsb is_ascii_digit (group 1 am) = true /\
     strptime (date_text dm) = Ok dt).
Proof.
  split; [reflexivity|].
  split; [intros [blocks|]; split; intros H; try reflexivity; discriminate H|].
  split; [|split].
  - unfold parse_html_content.
    now rewrite extract_loop_app, extract_loop_cons.
  - unfold emitted. destruct (process_block _ b) as [[t|]|e]; simpl; lia.
  - unfold emitted. split.
    + destruct (process_block (List.length pre) b) as [[t|]|e] eqn:E;
        try congruence.
      intros _. apply process_block_some in E
        as (nodes & am & rm & dm & a & dt & Hn & Ham & Hrm & Hdm & Ha & Hdt & _).
      exists nodes, am, rm, dm, dt. repeat split; auto.
      apply (amount_read _ Ham). eauto.
    + intros (nodes & am & rm & dm & dt & Hn & Ham & Hrm & Hdm & Hd & Hdt).
      apply (amount_read _ Ham) in Hd as [a Ha].
      assert (E : process_block (List.length pre) b =
                  Ok (Some {| amount := a;
                              recipient := strip (group 1 rm);
                              date := strftime dt;
                              payment_method := method_of (get_text nodes);
                              id := py "tx_" ++ decimal (N.of_nat (List.length pre)) |})).
      { apply process_block_some.
        exists nodes, am, rm, dm, a, dt. repeat split; auto. }
      rewrite E. discriminate.
Qed.

(** [C2] as the specification words it does not hold: in [commas_sample]
    the three patterns are found and the date is a real one, and the block
    adds no record, [float] raising on an amount token without a digit.  And
    the call raises for a document the parser gives up. *)
Lemma C2_amount_without_a_digit :
  (exists am rm dm dt,
     search amount_re (get_text [commas_sample]) = Some am /\
     search recipient_re (get_text [commas_sample]) = Some rm /\
     search date_re (get_text [commas_sample]) = Some dm /\
     strptime (date_text dm) = Ok dt /\
     valid_date (year dt) (month dt) (day dt) = true /\
     py_float (remove_commas (group 1 am)) = Raise ValueError) /\
  emitted 0 (sentence commas_sample) = [] /\
  parse_html_content [sentence commas_sample] = [] /\
  parse_html_document Rejected = Raised.
Proof.
  split; [|repeat split; vm_compute; reflexivity].
  do 4 eexists.
  split; [vm_compute; reflexivity|].
  split; [vm_compute; reflexivity|].
  split; [vm_compute; reflexivity|].
  split; [vm_compute; reflexivity|].
  split; vm_compute; reflexivity.
Qed.

(** ** The order of text, and numbers written out *)

Lemma str_compare_eq (a b : str) : str_compare a b = Eq -> a = b.
Proof.
  revert b; induction a as [|x a IH]; intros [|y b]; simpl; try congruence.
  destruct (x ?= y) eqn:E; try discriminate.
  apply N.compare_eq in E. subst y. intros H. f_equal. now apply IH.
Qed.

Lemma str_compare_lt_trans (a b c : str) :
  str_compare a b = Lt -> str_compare b c = Lt -> str_compare a c = Lt.
Proof.
  revert b c; induction a as [|x a IH]; intros [|y b] [|z c]; simpl;
    try congruence.
  destruct (x ?= y) eqn:Exy; try discriminate.
  - apply N.compare_eq in Exy. subst y.
    destruct (x ?= z); try congruence. apply IH.
  - intros _. destruct (y ?= z) eqn:Eyz; try discriminate.
    + apply N.compare_eq in Eyz. subst z. now rewrite Exy.
    + intros _. rewrite N.compare_lt_iff in Exy, Eyz.
      now rewrite (proj2 (N.compare_lt_iff x z) (N.lt_trans _ _ _ Exy Eyz)).
Qed.

(** [<=] on text is a total preorder. *)
Lemma str_leb_trans (a b c : str) :
  str_leb a b = true -> str_leb b c = true -> str_leb a c = true.
Proof.
  unfold str_leb, str_ltb.
  rewrite (str_compare_antisym a b), (str_compare_antisym b c),
    (str_compare_antisym a c).
  destruct (str_compare a b) eqn:Eab; simpl; try discriminate;
    destruct (str_compare b c) eqn:Ebc; simpl; try discriminate; intros _ _.
  - apply str_compare_eq in Eab, Ebc. subst. now rewrite str_compare_refl.
  - apply str_compare_eq in Eab. subst. now rewrite Ebc.
  - apply str_compare_eq in Ebc. subst. now rewrite Eab.
  - now rewrite (str_compare_lt_trans _ _ _ Eab Ebc).
Qed.

Lemma str_leb_refl (a : str) : str_leb a a = true.
Proof. unfold str_leb. now rewrite str_ltb_irrefl. Qed.

Lemma str_leb_total (a b : str) : str_leb a b = true \/ str_leb b a = true.
Proof.
  unfold str_leb. destruct (str_ltb b a) eqn:E; auto.
  right. now rewrite (str_ltb_asym _ _ E).
Qed.

Lemma decimal_value_digit (d : N) : d < 10 -> decimal_value (48 + d) = Some d.
Proof.
  intros H.
  assert (Hd : d = 0 \/ d = 1 \/ d = 2 \/ d = 3 \/ d = 4 \/ d = 5 \/ d = 6
               \/ d = 7 \/ d = 8 \/ d = 9) by lia.
  repeat (destruct Hd as [->|Hd]; [reflexivity|]). now subst d.
Qed.

Lemma int_digits_decimal_aux (fuel : nat) (n : N) (acc : str) :
  n < 2 ^ N.of_nat fuel ->
  int_digits 0 (decimal_aux fuel n acc) = int_digits n acc.
Proof.
  revert n acc. induction fuel as [|fuel IH]; intros n acc Hn.
  - simpl in Hn. assert (n = 0) by lia. subst n. reflexivity.
  - cbn [decimal_aux]. cbv zeta.
    assert (Hmod : n mod 10 < 10) by (apply N.mod_lt; lia).
    pose proof (N.div_mod n 10 ltac:(lia)) as Hdm.
    destruct (n / 10 =? 0) eqn:E.
    + apply N.eqb_eq in E. cbn [int_digits].
      rewrite (decimal_value_digit Hmod). f_equal. lia.
    + apply N.eqb_neq in E. rewrite IH.
      * cbn [int_digits]. rewrite (decimal_value_digit Hmod). f_equal. lia.
      * rewrite Nnat.Nat2N.inj_succ, N.pow_succ_r' in Hn.
        apply N.Div0.div_lt_upper_bound. lia.
Qed.

Lemma decimal_aux_cons (fuel : nat) (n : N) (acc : str) :
  decimal_aux (S fuel) n acc <> [].
Proof.
  revert n acc. induction fuel as [|fuel IH]; intros n acc.
  - cbn. destruct (n / 10 =? 0); discriminate.
  - change (decimal_aux (S (S fuel)) n acc) with
      (if n / 10 =? 0 then (48 + n mod 10) :: acc
       else decimal_aux (S fuel) (n / 10) ((48 + n mod 10) :: acc)).
    destruct (n / 10 =? 0); [discriminate|apply IH].
Qed.

(** [int(str(n))] is [n]. *)
Lemma py_int_decimal (n : N) : py_int (decimal n) = Ok n.
Proof.
  unfold py_int, decimal.
  destruct (decimal_aux (S (N.to_nat (N.log2 n))) n []) eqn:E.
  - now apply decimal_aux_cons in E.
  - rewrite <- E, int_digits_decimal_aux; [reflexivity|].
    rewrite Nnat.Nat2N.inj_succ, N2Nat.id.
    destruct (N.eq_dec n 0) as [->|Hn]; [reflexivity|].
    apply N.log2_spec. lia.
Qed.

Lemma decimal_inj (n m : N) : decimal n = decimal m -> n = m.
Proof.
  intros H. pose proof (py_int_decimal n) as Hn. rewrite H, py_int_decimal in Hn.
  now apply Ok_inj in Hn.
Qed.

(** ** The identifiers of the records *)

Lemma emitted_id (i : nat) (b : block) (t : transaction) :
  emitted i b = [t] -> id t = py "tx_" ++ decimal (N.of_nat i).
Proof.
  unfold emitted. destruct (process_block i b) as [[t'|]|e] eqn:E;
    try discriminate.
  intros H. injection H as ->.
  apply process_block_some in E
    as (nodes & am & rm & dm & a & dt & _ & _ & _ & _ & _ & _ & ->).
  reflexivity.
Qed.

Lemma emitted_cases (i : nat) (b : block) :
  emitted i b = [] \/ exists t, emitted i b = [t].
Proof.
  unfold emitted. destruct (process_block i b) as [[t|]|e]; eauto.
Qed.

Lemma extract_loop_ids (i : nat) (blocks : list block) :
  exists ks,
    map id (extract_loop i blocks [])
      = map (fun k => py "tx_" ++ decimal (N.of_nat k)) ks /\
    StronglySorted lt ks /\
    Forall (fun k => i <= k < i + List.length blocks)%nat ks.
Proof.
  revert i. induction blocks as [|b blocks IH]; intros i.
  - exists []. simpl. repeat constructor.
  - destruct (IH (S i)) as (ks & Hids & Hsorted & Hrange).
    rewrite extract_loop_cons, map_app, Hids.
    assert (Hrange' : Forall (fun k => i <= k < i + List.length (b :: blocks))%nat ks).
    { eapply Forall_impl; [|exact Hrange]. simpl. intros k Hk. lia. }
    destruct (emitted_cases i b) as [->|[t Ht]].
    + exists ks. auto.
    + rewrite Ht. exists (i :: ks). simpl. rewrite (emitted_id _ _ Ht).
      split; [reflexivity|]. split.
      * constructor; [exact Hsorted|].
        eapply Forall_impl; [|exact Hrange]. simpl. intros k Hk. lia.
      * constructor; [simpl; lia|exact Hrange'].
Qed.

Lemma tx_id_inj (j k : nat) :
  py "tx_" ++ decimal (N.of_nat j) = py "tx_" ++ decimal (N.of_nat k) -> j = k.
Proof.
  intros H. apply app_inv_head in H. apply decimal_inj in H. lia.
Qed.

Lemma sorted_ids_nodup (ks : list nat) :
  StronglySorted lt ks ->
  NoDup (map (fun k => py "tx_" ++ decimal (N.of_nat k)) ks).
Proof.
  induction 1 as [|k ks Hs IH Hall]; simpl; constructor; auto.
  intros Hin. apply in_map_iff in Hin as (j & Hj & Hin).
  apply tx_id_inj in Hj. subst j.
  rewrite Forall_forall in Hall. specialize (Hall k Hin). lia.
Qed.

Lemma extract_loop_length (i : nat) (blocks : list block) :
  (List.length (extract_loop i blocks []) <= List.length blocks)%nat.
Proof.
  revert i. induction blocks as [|b blocks IH]; intros i; [simpl; lia|].
  rewrite extract_loop_cons, length_app. specialize (IH (S i)).
  destruct (emitted_cases i b) as [->|[t ->]]; simpl; lia.
Qed.

(** X1.  The identifiers of the records of a document are pairwise distinct: they
    are ["tx_k"] for places [k] of blocks of the document, in increasing
    order, a place left out for each block that gives no record; so there
    are no more records than blocks. *)
Theorem parse_html_content_ids (blocks : list block) :
  NoDup (map id (parse_html_content blocks)) /\
  (List.length (parse_html_content blocks) <= List.length blocks)%nat /\
  exists ks,
    map id (parse_html_content blocks)
      = map (fun k => py "tx_" ++ decimal (N.of_nat k)) ks /\
    StronglySorted lt ks /\
    Forall (fun k => k < List.length blocks)%nat ks.
Proof.
  unfold parse_html_content.
  destruct (extract_loop_ids 0 blocks) as (ks & Hids & Hsorted & Hrange).
  split; [rewrite Hids; now apply sorted_ids_nodup|].
  split; [apply extract_loop_length|].
  exists ks. repeat split; auto.
  eapply Forall_impl; [|exact Hrange]. simpl. intros k Hk. lia.
Qed.

(** ** What the filter selects *)

Lemma newest_first_head (x : transaction) (l : list transaction) :
  newest_first (x :: l) = true ->
  newest_first l = true /\
  Forall (fun y => str_leb (date y) (date x) = true) l.
Proof.
  revert x. induction l as [|y l IH]; intros x H; [auto|].
  change (negb (str_ltb (date x) (date y)) && newest_first (y :: l) = true) in H.
  apply andb_true_iff in H as [Hxy Hl]. split; [exact Hl|].
  destruct (IH y Hl) as [_ Hall]. constructor; [exact Hxy|].
  eapply Forall_impl; [|exact Hall]. simpl. intros z Hz.
  exact (str_leb_trans _ _ _ Hz Hxy).
Qed.

(** In a list that is newest first no record comes after an older one. *)
Lemma newest_first_app (a b : list transaction) :
  newest_first (a ++ b) = true ->
  forall x y, In x a -> In y b -> str_leb (date y) (date x) = true.
Proof.
  induction a as [|z a IH]; intros H x y Hx Hy; [contradiction|].
  change ((z :: a) ++ b) with (z :: (a ++ b)) in H.
  apply newest_first_head in H as [Hs Hall].
  destruct Hx as [->|Hx]; [|now apply (IH Hs)].
  rewrite Forall_forall in Hall. apply Hall, in_or_app. now right.
Qed.

Lemma newest_first_firstn (n : nat) (l : list transaction) :
  newest_first l = true -> newest_first (firstn n l) = true.
Proof.
  revert n. induction l as [|x l IH]; intros [|n] H; try reflexivity.
  pose proof (newest_first_head _ _ H) as [Hl Hall].
  specialize (IH n Hl). cbn [firstn].
  destruct l as [|y l]; [destruct n; reflexivity|].
  destruct n as [|n]; [reflexivity|].
  cbn [firstn] in IH |- *.
  change (negb (str_ltb (date x) (date y)) && newest_first (y :: firstn n l) = true).
  apply andb_true_iff. split; [|exact IH].
  change (negb (str_ltb (date x) (date y)) && newest_first (y :: l) = true) in H.
  now apply andb_true_iff in H as [Hxy _].
Qed.






Lemma window_positive (timeframe : str) : (7 <= window timeframe)%nat.
Proof. destruct (window_cases timeframe) as [H|[H|[H|H]]]; rewrite H; lia. Qed.

(** X3.  The windows nest: of two selectors other than ["all"], the one with the
    smaller window returns the first records of what the other returns; so
    the week is the head of the month, the month of the three months. *)
Theorem filter_windows_nest
    (self : GPPayAnalyzer) (narrow wide : str) (h : heap) :
  str_eqb narrow (py "all") = false ->
  str_eqb wide (py "all") = false ->
  (window narrow <= window wide)%nat ->
  filtered self narrow h = firstn (window narrow) (filtered self wide h).
Proof.
  intros Hn Hw Hle.
  rewrite (filtered_window _ _ _ Hn), (filtered_window _ _ _ Hw).
  rewrite firstn_firstn. now rewrite Nat.min_l.
Qed.

Lemma filter_windows_nest_witness :
  (window (py "one week") <= window (py "3 months"))%nat /\
  filtered holder (py "one week") sample_heap
    = firstn 7 (filtered holder (py "3 months") sample_heap).
Proof.
  assert (H : (window (py "one week") <= window (py "3 months"))%nat)
    by (vm_compute; lia).
  split; [exact H|].
  exact (@filter_windows_nest holder (py "one week") (py "3 months")
           sample_heap eq_refl eq_refl H).
Defined.



Lemma analyze_with_crewai_filtered (self : GPPayAnalyzer) (query timeframe : str)
    (h : heap) :
  fst (analyze_with_crewai self query timeframe h) =
  match filtered self timeframe h with
  | [] => NoTransactionsFound timeframe
  | _ :: _ => Analysed (fst (filter_by_timeframe self timeframe h))
  end.
Proof.
  unfold analyze_with_crewai, filtered.
  destruct (filter_by_timeframe self timeframe h) as [l h'].
  simpl. destruct (deref h' l); reflexivity.
Qed.

Lemma filtered_nil (self : GPPayAnalyzer) (timeframe : str) (h : heap) :
  filtered self timeframe h = [] <-> deref h (transactions self) = [].
Proof.
  destruct (str_eqb timeframe (py "all")) eqn:Hall.
  - apply str_eqb_eq in Hall. subst timeframe. now rewrite filtered_all.
  - destruct (filtered_most_recent self _ h Hall) as (s & _ & _ & _ & Hlen).
    pose proof (window_positive timeframe) as Hw.
    split; intros H.
    + rewrite H in Hlen. simpl in Hlen.
      destruct (deref h (transactions self)); [reflexivity|simpl in Hlen; lia].
    + rewrite H in Hlen. simpl in Hlen. rewrite Nat.min_0_r in Hlen.
      destruct (filtered self timeframe h); [reflexivity|discriminate].
Qed.

(** X5.  [analyze_with_crewai] answers with its marker ["No transactions found
    for timeframe: ..."] when, and only when, the analyzer holds no record:
    for a batch that is not empty every selector selects a record, and the
    selection is handed on. *)
Theorem analyze_with_crewai_marker_iff_empty
    (self : GPPayAnalyzer) (query timeframe : str) (h : heap) :
  (fst (analyze_with_crewai self query timeframe h)
     = NoTransactionsFound timeframe
   <-> deref h (transactions self) = []) /\
  (fst (analyze_with_crewai self query timeframe h)
     = Analysed (fst (filter_by_timeframe self timeframe h))
   <-> deref h (transactions self) <> []).
Proof.
  rewrite analyze_with_crewai_filtered, <- (filtered_nil self timeframe h).
  destruct (filtered self timeframe h); split; split; intros H;
    congruence.
Qed.

(** ** The timeframe [/analyze] works out *)


(** ** The date range *)

Lemma min_str_le (m d : str) :
  str_leb (min_str m d) m = true /\ str_leb (min_str m d) d = true /\
  (min_str m d = m \/ min_str m d = d).
Proof.
  unfold min_str. destruct (str_ltb d m) eqn:E.
  - repeat split; auto using str_leb_refl.
    unfold str_leb. now rewrite (str_ltb_asym _ _ E).
  - repeat split; auto using str_leb_refl. unfold str_leb. now rewrite E.
Qed.

Lemma max_str_ge (m d : str) :
  str_leb m (max_str m d) = true /\ str_leb d (max_str m d) = true /\
  (max_str m d = m \/ max_str m d = d).
Proof.
  unfold max_str. destruct (str_ltb m d) eqn:E.
  - repeat split; auto using str_leb_refl.
    unfold str_leb. now rewrite (str_ltb_asym _ _ E).
  - repeat split; auto using str_leb_refl. unfold str_leb. now rewrite E.
Qed.

Lemma fold_min_spec (rest : list transaction) (m0 : str) :
  let m := fold_left (fun m u => min_str m (date u)) rest m0 in
  str_leb m m0 = true /\
  (forall u, In u rest -> str_leb m (date u) = true) /\
  (m = m0 \/ In m (map date rest)).
Proof.
  revert m0. induction rest as [|t rest IH]; intros m0; cbv zeta.
  - simpl. auto using str_leb_refl.
  - cbn [fold_left]. destruct (IH (min_str m0 (date t))) as (H1 & H2 & H3).
    destruct (min_str_le m0 (date t)) as (Ha & Hb & Hc).
    split; [exact (str_leb_trans _ _ _ H1 Ha)|]. split.
    + intros u [<-|Hu]; [exact (str_leb_trans _ _ _ H1 Hb)|now apply H2].
    + destruct H3 as [H3|H3]; [|right; now right].
      rewrite H3. destruct Hc as [->| ->]; [now left|right; now left].
Qed.

Lemma fold_max_spec (rest : list transaction) (m0 : str) :
  let m := fold_left (fun m u => max_str m (date u)) rest m0 in
  str_leb m0 m = true /\
  (forall u, In u rest -> str_leb (date u) m = true) /\
  (m = m0 \/ In m (map date rest)).
Proof.
  revert m0. induction rest as [|t rest IH]; intros m0; cbv zeta.
  - simpl. auto using str_leb_refl.
  - cbn [fold_left]. destruct (IH (max_str m0 (date t))) as (H1 & H2 & H3).
    destruct (max_str_ge m0 (date t)) as (Ha & Hb & Hc).
    split; [exact (str_leb_trans _ _ _ Ha H1)|]. split.
    + intros u [<-|Hu]; [exact (str_leb_trans _ _ _ Hb H1)|now apply H2].
    + destruct H3 as [H3|H3]; [|right; now right].
      rewrite H3. destruct Hc as [->| ->]; [now left|right; now left].
Qed.

(** X7.  The date range of a report on a batch that is not empty, in the tool's
    [analysis] and in the [insights] of [/quick-insights]: its start and its
    end are dates of records, and the date of every record lies between
    them. *)
Theorem date_range_bounds (df : list transaction) :
  df <> [] ->
  exists first last,
    field "date_range" (quick_insights df)
      = Some (PyDict [("start"%string, PyStr first); ("end"%string, PyStr last)]) /\
    field "date_range" (build_analysis df)
      = Some (PyDict [("start"%string, PyStr first); ("end"%string, PyStr last)]) /\
    In first (map date df) /\ In last (map date df) /\
    Forall (fun t => str_leb first (date t) && str_leb (date t) last = true) df.
Proof.
  destruct df as [|t rest]; [congruence|]. intros _.
  destruct (fold_min_spec rest (date t)) as (A1 & A2 & A3).
  destruct (fold_max_spec rest (date t)) as (B1 & B2 & B3).
  cbv zeta in *.
  exists (fold_left (fun m u => min_str m (date u)) rest (date t)),
         (fold_left (fun m u => max_str m (date u)) rest (date t)).
  split; [reflexivity|]. split; [reflexivity|]. split; [|split].
  - simpl. destruct A3 as [->|A3]; auto.
  - simpl. destruct B3 as [->|B3]; auto.
  - rewrite Forall_forall. intros u [<-|Hu]; apply andb_true_iff; auto.
Qed.

Lemma date_range_bounds_witness :
  [amazon; swiggy; zomato] <> [] /\
  exists first last,
    field "date_range" (quick_insights [amazon; swiggy; zomato])
      = Some (PyDict [("start"%string, PyStr first); ("end"%string, PyStr last)]) /\
    field "date_range" (build_analysis [amazon; swiggy; zomato])
      = Some (PyDict [("start"%string, PyStr first); ("end"%string, PyStr last)]) /\
    In first (map date [amazon; swiggy; zomato]) /\
    In last (map date [amazon; swiggy; zomato]) /\
    Forall (fun t => str_leb first (date t) && str_leb (date t) last = true)
           [amazon; swiggy; zomato].
Proof.
  assert (H : [amazon; swiggy; zomato] <> []) by discriminate.
  split; [exact H|].
  exact (@date_range_bounds [amazon; swiggy; zomato] H).
Defined.

(** ** The endpoints *)

Lemma deref_new (h : heap) (v : list transaction) :
  deref (h ++ [v]) (List.length h) = v.
Proof. exact (deref_alloc_new h v). Qed.

Lemma firstn_old (h : heap) (v : list transaction) :
  firstn (List.length h) (h ++ [v]) = h.
Proof. exact (alloc_keeps h v). Qed.

Lemma parse_html_content_held (self : GPPayAnalyzer) (blocks : list block)
    (h : heap) :
  GPPayAnalyzer_parse_html_content self blocks h =
  (List.length h, {| transactions := List.length h |},
   h ++ [parse_html_content blocks]).
Proof. reflexivity. Qed.


(** X9.  An upload in which no transaction is found is not answered with the 400
    the endpoint raises for it: its own handler catches that and answers
    with 500.  The analyzer holds an empty batch afterwards, whatever it
    held before; the list objects of before are as they were. *)
Theorem upload_html_without_transactions
    (analyzer : GPPayAnalyzer) (filename : str) (blocks : list block)
    (h : heap) :
  ends_with (py ".html") filename = true ->
  parse_html_content blocks = [] ->
  let '(answer, analyzer', h') :=
    upload_html analyzer filename (Some blocks) h in
  answer = Raises (HTTPException 500 (py "Error processing file: ")
                     (Some (HTTPException 400
                              (py "No transactions found in HTML file") None)))
  /\ deref h' (transactions analyzer') = []
  /\ firstn (List.length h) h' = h.
Proof.
  intros Hname Hnone. unfold upload_html.
  rewrite Hname, parse_html_content_held, Hnone. cbn [negb].
  rewrite deref_new. cbn [except_exception transactions].
  rewrite deref_new, firstn_old. auto.
Qed.

Lemma upload_html_without_transactions_witness :
  List.length (deref (heap_of 3) (transactions holder)) = 3%nat /\
  let '(answer, analyzer', h') :=
    upload_html holder (py "gpay.html") (Some [sentence commas_sample])
                (heap_of 3) in
  answer = Raises (HTTPException 500 (py "Error processing file: ")
                     (Some (HTTPException 400
                              (py "No transactions found in HTML file") None)))
  /\ deref h' (transactions analyzer') = []
  /\ firstn (List.length (heap_of 3)) h' = heap_of 3.
Proof.
  split; [reflexivity|].
  apply (@upload_html_without_transactions holder (py "gpay.html")
           [sentence commas_sample] (heap_of 3)).
  - reflexivity.
  - vm_compute. reflexivity.
Defined.

(** X10.  For an upload with a record in it the function of [/upload]
    returns the number of the records, the first five of them, and a date
    range whose ends are dates of records and, in the order of text, hold
    the dates of all; the analyzer holds the records of this upload
    afterwards, in a list object of their own.  (Whether the framework can
    write the returned value out is not part of this.) *)
Theorem upload_html_summary
    (analyzer : GPPayAnalyzer) (filename : str) (blocks : list block)
    (h : heap) :
  ends_with (py ".html") filename = true ->
  parse_html_content blocks <> [] ->
  let '(answer, analyzer', h') :=
    upload_html analyzer filename (Some blocks) h in
  (exists summary,
     answer = Returns summary /\
     total_transactions summary = List.length (parse_html_content blocks) /\
     preview summary = firstn 5 (parse_html_content blocks) /\
     In (date_range_start summary) (map date (parse_html_content blocks)) /\
     In (date_range_end summary) (map date (parse_html_content blocks)) /\
     Forall (fun t => str_leb (date_range_start summary) (date t)
                      && str_leb (date t) (date_range_end summary) = true)
            (parse_html_content blocks))
  /\ deref h' (transactions analyzer') = parse_html_content blocks
  /\ transactions analyzer' = List.length h
  /\ firstn (List.length h) h' = h.
Proof.
  intros Hname Hsome. unfold upload_html.
  rewrite Hname, parse_html_content_held. cbn [negb transactions].
  rewrite deref_new, firstn_old.
  destruct (parse_html_content blocks) as [|t rest]; [congruence|].
  split; [|auto].
  destruct (fold_min_spec rest (date t)) as (A1 & A2 & A3).
  destruct (fold_max_spec rest (date t)) as (B1 & B2 & B3).
  cbv zeta in *. cbn [except_exception].
  eexists. split; [reflexivity|].
  cbn [total_transactions preview date_range_start date_range_end].
  split; [reflexivity|]. split; [reflexivity|]. split; [|split].
  - simpl. destruct A3 as [->|A3]; auto.
  - simpl. destruct B3 as [->|B3]; auto.
  - rewrite Forall_forall. intros u [<-|Hu]; apply andb_true_iff; auto.
Qed.

Lemma upload_html_summary_witness :
  parse_html_content (map sentence [sample_1; sample_2; sample_3]) <> [] /\
  let '(answer, analyzer', h') :=
    upload_html holder (py "gpay.html")
                (Some (map sentence [sample_1; sample_2; sample_3]))
                (heap_of 3) in
  deref h' (transactions analyzer')
    = parse_html_content (map sentence [sample_1; sample_2; sample_3]).
Proof.
  assert (H : parse_html_content (map sentence [sample_1; sample_2; sample_3])
              <> []) by (vm_compute; discriminate).
  split; [exact H|].
  pose proof (@upload_html_summary holder (py "gpay.html")
                (map sentence [sample_1; sample_2; sample_3]) (heap_of 3)
                eq_refl H) as U.
  destruct (upload_html holder (py "gpay.html")
              (Some (map sentence [sample_1; sample_2; sample_3])) (heap_of 3))
    as [[answer analyzer'] h'].
  exact (proj1 (proj2 U)).
Defined.

(** ** The counts of the aggregator *)

Lemma insert_count_in (x e : str * nat) (acc : list (str * nat)) :
  In e (insert_count x acc) <-> e = x \/ In e acc.
Proof.
  induction acc as [|y acc IH]; simpl.
  - intuition auto.
  - destruct (Nat.leb (snd x) (snd y)); simpl; rewrite ?IH; intuition auto.
Qed.

Lemma fold_insert_count_in (pairs acc : list (str * nat)) (e : str * nat) :
  In e (fold_left (fun acc x => insert_count x acc) pairs acc)
  <-> In e pairs \/ In e acc.
Proof.
  revert acc. induction pairs as [|x pairs IH]; intros acc; simpl.
  - intuition auto.
  - rewrite IH, insert_count_in. intuition auto.
Qed.

Lemma insert_count_head (x : str * nat) (acc : list (str * nat)) :
  (forall y, hd_error acc = Some y ->
             Forall (fun e => (snd e <= snd y)%nat) acc) ->
  forall y, hd_error (insert_count x acc) = Some y ->
            Forall (fun e => (snd e <= snd y)%nat) (insert_count x acc).
Proof.
  intros Hacc. destruct acc as [|z acc]; simpl.
  - intros y [= <-]. repeat constructor.
  - specialize (Hacc z eq_refl).
    destruct (Nat.leb (snd x) (snd z)) eqn:E; simpl; intros y [= <-].
    + apply Nat.leb_le in E. rewrite Forall_forall in *.
      intros e [<-|He]; [lia|].
      apply insert_count_in in He as [->|He]; [exact E|].
      apply Hacc. now right.
    + apply Nat.leb_gt in E. constructor; [lia|].
      eapply Forall_impl; [|exact Hacc]. simpl. intros e He. lia.
Qed.

Lemma fold_insert_count_head (pairs acc : list (str * nat)) :
  (forall y, hd_error acc = Some y ->
             Forall (fun e => (snd e <= snd y)%nat) acc) ->
  forall y,
    hd_error (fold_left (fun acc x => insert_count x acc) pairs acc) = Some y ->
    Forall (fun e => (snd e <= snd y)%nat)
           (fold_left (fun acc x => insert_count x acc) pairs acc).
Proof.
  revert acc. induction pairs as [|x pairs IH]; intros acc Hacc; simpl.
  - exact Hacc.
  - apply IH. now apply insert_count_head.
Qed.

Lemma distinct_in (w : str) (l : list str) : In w (distinct l) <-> In w l.
Proof.
  induction l as [|x l IH]; simpl; [reflexivity|].
  rewrite filter_In, IH. split.
  - intros [H|[H _]]; auto.
  - intros [H|H]; auto.
    destruct (str_eqb x w) eqn:E; [left; now apply str_eqb_eq|auto].
Qed.

Lemma occurrences_none (w : str) (l : list str) :
  ~ In w l -> occurrences w l = 0%nat.
Proof.
  unfold occurrences. induction l as [|x l IH]; simpl; [reflexivity|].
  intros H. destruct (str_eqb w x) eqn:E.
  - apply str_eqb_eq in E. subst x. exfalso. auto.
  - apply IH. auto.
Qed.

Lemma in_dec_str (w : str) (l : list str) : In w l \/ ~ In w l.
Proof.
  induction l as [|x l [IH|IH]]; simpl; auto.
  destruct (str_eqb x w) eqn:E.
  - apply str_eqb_eq in E. auto.
  - right. intros [H|H]; auto. subst x. now rewrite str_eqb_refl in E.
Qed.

(** The first entry of [value_counts] is a value of the column that no
    other value occurs more often than. *)
Lemma value_counts_head (l : list str) :
  l <> [] ->
  exists w rest,
    value_counts l = (w, occurrences w l) :: rest /\ In w l /\
    forall w', (occurrences w' l <= occurrences w l)%nat.
Proof.
  intros Hl. unfold value_counts.
  set (pairs := map (fun w => (w, occurrences w l)) (distinct l)).
  assert (Hin : forall e, In e (fold_left (fun acc x => insert_count x acc) pairs [])
                          <-> In e pairs).
  { intros e. rewrite fold_insert_count_in. simpl. intuition auto. }
  assert (Hhead := @fold_insert_count_head pairs []
                     ltac:(intros y Hy; discriminate Hy)).
  destruct (fold_left (fun acc x => insert_count x acc) pairs []) as [|[w n] rest]
    eqn:E.
  - destruct l as [|x l]; [congruence|].
    exfalso. apply (proj2 (Hin (x, occurrences x (x :: l)))).
    unfold pairs. apply in_map_iff. exists x. split; [reflexivity|].
    apply distinct_in. now left.
  - assert (Hw : In (w, n) pairs) by (apply Hin; now left).
    unfold pairs in Hw. apply in_map_iff in Hw as (w0 & Hw0 & Hd).
    injection Hw0 as -> <-. apply (proj1 (distinct_in _ _)) in Hd.
    exists w, rest. split; [reflexivity|]. split; [exact Hd|].
    intros w'. destruct (in_dec_str w' l) as [Hw'|Hw'].
    + specialize (Hhead _ eq_refl). rewrite Forall_forall in Hhead.
      apply (Hhead (w', occurrences w' l)). apply Hin. unfold pairs.
      apply in_map_iff. exists w'. split; [reflexivity|].
      now apply distinct_in.
    + rewrite (occurrences_none _ _ Hw'). lia.
Qed.

(** X11.  The top merchant of [/quick-insights], for a batch that is not empty, is
    one recipient with the number of its records, and no recipient has more
    records than it. *)
Theorem top_merchant_is_most_frequent (records : list transaction) :
  records <> [] ->
  exists w,
    field "top_merchant" (quick_insights records)
      = Some (PyDict [(show w, PyInt (occurrences w (map recipient records)))]) /\
    In w (map recipient records) /\
    forall w', (occurrences w' (map recipient records)
                <= occurrences w (map recipient records))%nat.
Proof.
  intros H.
  assert (Hm : map recipient records <> [])
    by (destruct records; [congruence|discriminate]).
  destruct (value_counts_head Hm) as (w & rest & E & Hin & Hmax).
  exists w. split; [|auto].
  cbn [quick_insights field entry String.eqb Ascii.eqb Bool.eqb].
  simpl. rewrite E. reflexivity.
Qed.

Lemma top_merchant_is_most_frequent_witness :
  [swiggy; zomato; swiggy] <> [] /\
  exists w,
    field "top_merchant" (quick_insights [swiggy; zomato; swiggy])
      = Some (PyDict [(show w,
                       PyInt (occurrences w (map recipient [swiggy; zomato; swiggy])))]) /\
    In w (map recipient [swiggy; zomato; swiggy]) /\
    forall w', (occurrences w' (map recipient [swiggy; zomato; swiggy])
                <= occurrences w (map recipient [swiggy; zomato; swiggy]))%nat.
Proof.
  assert (H : [swiggy; zomato; swiggy] <> []) by discriminate.
  split; [exact H|].
  exact (@top_merchant_is_most_frequent [swiggy; zomato; swiggy] H).
Defined.

(** ** The order of the dates *)

Lemma valid_date_bounds (y m d : N) :
  valid_date y m d = true -> 1 <= m <= 12 /\ 1 <= d <= 31.
Proof.
  unfold valid_date, in_range. intros H.
  rewrite !andb_true_iff, !N.leb_le in H.
  assert (days_in_month y m <= 31).
  { unfold days_in_month.
    destruct (m =? 2); [destruct (is_leap y); lia|].
    destruct ((m =? 4) || (m =? 6) || (m =? 9) || (m =? 11)); lia. }
  lia.
Qed.

Lemma digits_compare (a b : N) (s t : str) :
  str_compare ((48 + a) :: s) ((48 + b) :: t) =
  match a ?= b with Eq => str_compare s t | o => o end.
Proof.
  cbn [str_compare].
  replace (48 + a ?= 48 + b) with (a ?= b); [reflexivity|].
  destruct (N.compare_spec a b) as [E|E|E]; symmetry.
  - subst. apply N.compare_refl.
  - apply N.compare_lt_iff. lia.
  - apply N.compare_gt_iff. lia.
Qed.

Lemma four_digits_compare (x y : N) (s t : str) :
  x <= 9999 -> y <= 9999 ->
  str_compare ([48 + x / 1000; 48 + (x / 100) mod 10; 48 + (x / 10) mod 10;
                48 + x mod 10] ++ s)
              ([48 + y / 1000; 48 + (y / 100) mod 10; 48 + (y / 10) mod 10;
                48 + y mod 10] ++ t) =
  match x ?= y with Eq => str_compare s t | o => o end.
Proof.
  intros Hx Hy. cbn [app]. rewrite !digits_compare.
  pose proof (N.div_mod x 10 ltac:(lia)).
  pose proof (N.div_mod (x / 10) 10 ltac:(lia)).
  pose proof (N.div_mod (x / 100) 10 ltac:(lia)).
  pose proof (N.div_mod y 10 ltac:(lia)).
  pose proof (N.div_mod (y / 10) 10 ltac:(lia)).
  pose proof (N.div_mod (y / 100) 10 ltac:(lia)).
  pose proof (N.mod_lt x 10 ltac:(lia)).
  pose proof (N.mod_lt (x / 10) 10 ltac:(lia)).
  pose proof (N.mod_lt (x / 100) 10 ltac:(lia)).
  pose proof (N.mod_lt y 10 ltac:(lia)).
  pose proof (N.mod_lt (y / 10) 10 ltac:(lia)).
  pose proof (N.mod_lt (y / 100) 10 ltac:(lia)).
  assert (Ex : x / 100 = x / 10 / 10) by (now rewrite N.Div0.div_div).
  assert (Ex' : x / 1000 = x / 100 / 10) by (now rewrite N.Div0.div_div).
  assert (Ey : y / 100 = y / 10 / 10) by (now rewrite N.Div0.div_div).
  assert (Ey' : y / 1000 = y / 100 / 10) by (now rewrite N.Div0.div_div).
  rewrite Ex', Ey' in *. rewrite Ex, Ey in *.
  generalize dependent (x mod 10). generalize dependent (y mod 10).
  generalize dependent ((x / 10) mod 10). generalize dependent ((y / 10) mod 10).
  generalize dependent ((x / 10 / 10) mod 10).
  generalize dependent ((y / 10 / 10) mod 10).
  generalize dependent (x / 10 / 10 / 10). generalize dependent (y / 10 / 10 / 10).
  generalize dependent (x / 10 / 10). generalize dependent (y / 10 / 10).
  generalize dependent (x / 10). generalize dependent (y / 10).
  intros.
  repeat match goal with
         | |- context [?u ?= ?v] => destruct (N.compare_spec u v)
         end; try reflexivity; lia.
Qed.

Lemma two_digits_compare (m n : N) (s t : str) :
  str_compare (two_digits m ++ s) (two_digits n ++ t) =
  match m ?= n with Eq => str_compare s t | o => o end.
Proof.
  unfold two_digits. cbn [app]. rewrite !digits_compare.
  pose proof (N.div_mod m 10 ltac:(lia)).
  pose proof (N.div_mod n 10 ltac:(lia)).
  pose proof (N.mod_lt m 10 ltac:(lia)).
  pose proof (N.mod_lt n 10 ltac:(lia)).
  generalize dependent (m mod 10). generalize dependent (n mod 10).
  generalize dependent (m / 10). generalize dependent (n / 10).
  intros.
  repeat match goal with
         | |- context [?u ?= ?v] => destruct (N.compare_spec u v)
         end; try reflexivity; lia.
Qed.

Lemma strftime_compare (a b : datetime) :
  in_range 1000 9999 (year a) = true ->
  in_range 1000 9999 (year b) = true ->
  str_compare (strftime a) (strftime b) =
  match year a ?= year b with
  | Eq => match month a ?= month b with
          | Eq => day a ?= day b
          | o => o
          end
  | o => o
  end.
Proof.
  intros Ha Hb. destruct a as [ya ma da], b as [yb mb db].
  cbn [year month day] in *.
  rewrite !strftime_iso by assumption. unfold iso_date.
  apply andb_true_iff in Ha as [_ Ha], Hb as [_ Hb].
  apply N.leb_le in Ha, Hb.
  rewrite four_digits_compare by assumption.
  destruct (ya ?= yb); try reflexivity.
  change (py "-") with [45]. cbn [app str_compare]. rewrite N.compare_refl.
  rewrite two_digits_compare.
  destruct (ma ?= mb); try reflexivity.
  cbn [app str_compare]. rewrite N.compare_refl.
  rewrite <- (app_nil_r (two_digits da)), <- (app_nil_r (two_digits db)).
  rewrite two_digits_compare.
  destruct (da ?= db); reflexivity.
Qed.

(** X12.  The filter sorts the records by the text of their date.  For dates of
    the years 1000 to 9999 the order of the texts [strftime] writes is the
    order of the dates: one text is below another when, and only when, its
    date is the earlier one, and two dates have the same text only when they
    are the same date. *)
Theorem date_text_order (a b : datetime) :
  in_range 1000 9999 (year a) = true ->
  in_range 1000 9999 (year b) = true ->
  str_ltb (strftime a) (strftime b) = datetime_ltb a b /\
  (str_eqb (strftime a) (strftime b) = true <-> a = b).
Proof.
  intros Ha Hb. pose proof (strftime_compare a b Ha Hb) as Hc. split.
  - unfold str_ltb, datetime_ltb. rewrite Hc.
    destruct (N.compare_spec (year a) (year b)) as [E|E|E];
      destruct (N.compare_spec (month a) (month b)) as [E1|E1|E1];
      destruct (N.compare_spec (day a) (day b)) as [E2|E2|E2];
      repeat match goal with
             | |- context [?u <? ?v] => destruct (N.ltb_spec u v)
             | |- context [?u =? ?v] => destruct (N.eqb_spec u v)
             end; try reflexivity; lia.
  - split.
    + intros H. apply str_eqb_eq in H. rewrite H, str_compare_refl in Hc.
      destruct a as [ya ma da], b as [yb mb db]. cbn [year month day] in *.
      destruct (N.compare_spec ya yb); try discriminate.
      destruct (N.compare_spec ma mb); try discriminate.
      symmetry in Hc. apply N.compare_eq in Hc. congruence.
    + intros ->. apply str_eqb_refl.
Qed.

Lemma date_text_order_witness :
  in_range 1000 9999 2024 = true /\
  str_ltb (py "2024-09-30") (py "2024-11-13") = true.
Proof.
  split; [reflexivity|].
  exact (proj1 (@date_text_order {| year := 2024; month := 9; day := 30 |}
                  {| year := 2024; month := 11; day := 13 |}
                  eq_refl eq_refl)).
Defined.

(** ** What the tool returns, and the text of the records *)

Lemma forallb_lstrip (p : N -> bool) (s : str) :
  forallb p s = true -> forallb p (lstrip s) = true.
Proof.
  intros H. destruct (lstrip_suffix s) as [q Hq].
  rewrite Hq, forallb_app in H. now apply andb_true_iff in H as [_ H].
Qed.

Lemma forallb_rev (p : N -> bool) (s : str) :
  forallb p (rev s) = forallb p s.
Proof.
  induction s as [|c s IH]; [reflexivity|].
  cbn [rev forallb]. rewrite forallb_app, IH. cbn [forallb].
  rewrite andb_true_r. apply andb_comm.
Qed.

Lemma forallb_strip (p : N -> bool) (s : str) :
  forallb p s = true -> forallb p (strip s) = true.
Proof.
  intros H. unfold strip, rstrip. rewrite forallb_rev.
  apply forallb_lstrip. rewrite forallb_rev. now apply forallb_lstrip.
Qed.

(** X14.  The text of a record: the recipient holds no line feed (U+000A;
    other line breaks, such as the carriage return, it can hold), and the
    payment method is made of letters, digits, spaces and the signs
    [-&()/.] only, with no whitespace at either end. *)
Theorem extracted_text_fields (blocks : list block) (t : transaction) :
  In t (parse_html_content blocks) ->
  forallb any_char (recipient t) = true /\
  forallb method_char (payment_method t) = true /\
  is_stripped (payment_method t) = true.
Proof.
  unfold parse_html_content. intros H.
  apply extract_loop_in in H as (k & b & _ & H).
  apply process_block_some in H
    as (nodes & am & rm & dm & a & dt & _ & _ & Hrm & _ & _ & _ & ->).
  cbn [recipient payment_method]. split.
  - apply recipient_match in Hrm as (pre & ws & post & _ & _ & _ & _ & Hg & _).
    now apply forallb_strip.
  - unfold method_of. destruct (search method_re (get_text nodes)) as [mm|] eqn:E.
    + apply method_match in E as (pre & ws & post & _ & _ & _ & _ & Hg & _).
      split; [now apply forallb_strip|apply strip_is_stripped].
    + split; reflexivity.
Qed.

Lemma extracted_text_fields_witness :
  In zomato (parse_html_content (map sentence [sample_1; sample_2])) /\
  forallb method_char (payment_method zomato) = true.
Proof.
  assert (H : In zomato (parse_html_content (map sentence [sample_1; sample_2])))
    by (vm_compute; right; left; reflexivity).
  split; [exact H|].
  exact (proj1 (proj2 (@extracted_text_fields
                         (map sentence [sample_1; sample_2]) zomato H))).
Defined.

(** ** The most recent records, and the tool on records *)

Lemma strftime_ltb (a b : datetime) :
  in_range 1000 9999 (year a) = true ->
  in_range 1000 9999 (year b) = true ->
  str_ltb (strftime a) (strftime b) = datetime_ltb a b.
Proof.
  intros Ha Hb. unfold str_ltb, datetime_ltb.
  rewrite (strftime_compare a b Ha Hb).
  destruct (N.compare_spec (year a) (year b)) as [E|E|E];
    destruct (N.compare_spec (month a) (month b)) as [E1|E1|E1];
    destruct (N.compare_spec (day a) (day b)) as [E2|E2|E2];
    repeat match goal with
           | |- context [?u <? ?v] => destruct (N.ltb_spec u v)
           | |- context [?u =? ?v] => destruct (N.eqb_spec u v)
           end; try reflexivity; lia.
Qed.

(** X2.  For a selector other than ["all"] the filter returns the records that
    come first when the batch is put in the descending order of the texts of
    the dates: with the records it leaves out it makes up the batch, no
    record left out has a date text above that of a record returned, and
    records are left out only where the window is full.  Where the texts
    were written by [strftime] from dates of the years 1000 to 9999, the
    records returned are the most recent ones: no record left out is of a
    later date than a record returned. *)
Theorem filter_selects_most_recent
    (self : GPPayAnalyzer) (timeframe : str) (h : heap) :
  str_eqb timeframe (py "all") = false ->
  exists rest,
    Permutation (filtered self timeframe h ++ rest) (deref h (transactions self)) /\
    newest_first (filtered self timeframe h) = true /\
    (forall x y, In x (filtered self timeframe h) -> In y rest ->
                 str_leb (date y) (date x) = true) /\
    (forall x y dx dy,
        In x (filtered self timeframe h) -> In y rest ->
        date x = strftime dx -> date y = strftime dy ->
        in_range 1000 9999 (year dx) = true ->
        in_range 1000 9999 (year dy) = true ->
        datetime_ltb dx dy = false) /\
    (rest <> [] -> List.length (filtered self timeframe h) = window timeframe).
Proof.
  intros Hall. rewrite (filtered_window _ _ _ Hall).
  set (sorted_txns := sorted_newest_first (deref h (transactions self))).
  exists (skipn (window timeframe) sorted_txns).
  pose proof (sorted_newest_first_sorted (deref h (transactions self))) as Hs.
  fold sorted_txns in Hs.
  assert (Hord : forall x y,
             In x (firstn (window timeframe) sorted_txns) ->
             In y (skipn (window timeframe) sorted_txns) ->
             str_leb (date y) (date x) = true).
  { apply newest_first_app. now rewrite firstn_skipn. }
  split; [rewrite firstn_skipn; apply sorted_newest_first_perm|].
  split; [now apply newest_first_firstn|].
  split; [exact Hord|]. split.
  - intros x y dx dy Hx Hy Ex Ey Hdx Hdy.
    specialize (Hord x y Hx Hy). unfold str_leb in Hord.
    rewrite Ex, Ey, (strftime_ltb dx dy Hdx Hdy) in Hord.
    now apply negb_true_iff in Hord.
  - intros Hrest. rewrite length_firstn.
    assert (Hlen : List.length (skipn (window timeframe) sorted_txns) <> 0%nat)
      by (destruct (skipn (window timeframe) sorted_txns);
          [congruence|discriminate]).
    rewrite length_skipn in Hlen. lia.
Qed.

Lemma filter_selects_most_recent_witness :
  str_eqb (py "one week") (py "all") = false /\
  exists rest,
    Permutation (filtered holder (py "one week") (heap_of 9) ++ rest)
                (deref (heap_of 9) (transactions holder)) /\
    newest_first (filtered holder (py "one week") (heap_of 9)) = true /\
    (forall x y, In x (filtered holder (py "one week") (heap_of 9)) ->
                 In y rest -> str_leb (date y) (date x) = true) /\
    (forall x y dx dy,
        In x (filtered holder (py "one week") (heap_of 9)) -> In y rest ->
        date x = strftime dx -> date y = strftime dy ->
        in_range 1000 9999 (year dx) = true ->
        in_range 1000 9999 (year dy) = true ->
        datetime_ltb dx dy = false) /\
    (rest <> [] ->
     List.length (filtered holder (py "one week") (heap_of 9))
       = window (py "one week")).
Proof.
  split; [reflexivity|].
  exact (@filter_selects_most_recent holder (py "one week") (heap_of 9) eq_refl).
Defined.

(** X13.  On rows that are records as the extractor writes them (every
    field there, the recipient a text) the tool returns its report for no
    batch: for the empty one it returns the text ["No transactions to
    analyze"], for every other one the text of the [TypeError] that
    [json.dumps] raises on the counts of [top_merchants]. *)
Theorem analyze_transaction_data_outcomes (data : list transaction) :
  analyze_transaction_data data =
    match data with
    | [] => NoTransactions
    | _ :: _ => ErrorAnalyzing TypeError
    end.
Proof.
  destruct data as [|t data]; [reflexivity|].
  apply analyze_transaction_data_never_reports.
Qed.
